(** * zproc: the state server and its watcher-resolution engine

    A shallow embedding of [zproc/zproc_server.py]: the shared state (a Python
    [dict]), the [Queue] wrapper around [collections.deque], the four watcher
    registries of [ZProcServer], the request handlers, the resolver sweeps and
    one iteration of the [state_server] main loop.

    Conventions of the embedding.
    - Python values stored in the state, and its keys, are the atoms [None],
      integers and strings; on these, Python's [==] is structural equality
      and every value is hashable.  An object sent as the key of a watcher
      is such an atom or an object that cannot be hashed (a list, say).
    - A [dict] is an association list in insertion order without duplicate
      keys (CPython >= 3.7): [popitem] removes the last inserted item and
      [==] on dicts ignores the order.  A [defaultdict] is iterated in the
      order in which its keys were first used.
    - A handler is a computation in a small monad that threads the server
      object, may raise a Python exception, and logs what it sends on the
      sockets.  A mutation made before an exception is raised persists, as it
      does in Python.  Sending itself does not fail.
    - [uuid1()] is a counter: every call of [get_random_ipc] mints a fresh
      endpoint.
    - The log also records each entry into [resolve_all_handlers], so that
      the sweeps of a run can be counted. *)

From Stdlib Require Import List String ZArith Bool Arith Lia Permutation.
From AAC_tactics Require Import AAC.
From AAC_tactics Require Instances.
Import Instances.Lists.
Import ListNotations.
Open Scope string_scope.
Open Scope list_scope.

(** ** Python values and exceptions *)

Inductive value : Type :=
| VNone
| VInt (z : Z)
| VStr (s : string).

Definition value_eqb (a b : value) : bool :=
  match a, b with
  | VNone, VNone => true
  | VInt x, VInt y => Z.eqb x y
  | VStr x, VStr y => String.eqb x y
  | _, _ => false
  end.

Inductive exn : Type :=
| KeyError
| TypeError
| AttributeError
| ValueError
| UserError (tag : string).   (* any other exception class, by its name *)

Inductive result (A : Type) : Type :=
| Ok (a : A)
| Raise (e : exn).
Arguments Ok {A} a.
Arguments Raise {A} e.

(** ** The state: a Python dict *)

Definition dict : Type := list (value * value).

Fixpoint dict_lookup (d : dict) (k : value) : option value :=
  match d with
  | [] => None
  | (k', v) :: rest => if value_eqb k' k then Some v else dict_lookup rest k
  end.

(** [d.get(k)]: the default is [None]. *)
Definition dict_get (d : dict) (k : value) : value :=
  match dict_lookup d k with
  | Some v => v
  | None => VNone
  end.

Definition dict_contains (d : dict) (k : value) : bool :=
  match dict_lookup d k with
  | Some _ => true
  | None => false
  end.

(** [d[k] = v]: an existing key keeps its position, a new key goes last. *)
Fixpoint dict_setitem (d : dict) (k v : value) : dict :=
  match d with
  | [] => [(k, v)]
  | (k', v') :: rest =>
      if value_eqb k' k then (k', v) :: rest
      else (k', v') :: dict_setitem rest k v
  end.

Fixpoint dict_remove (d : dict) (k : value) : dict :=
  match d with
  | [] => []
  | (k', v') :: rest =>
      if value_eqb k' k then rest else (k', v') :: dict_remove rest k
  end.

(** [d1 == d2]: same length, and every item of [d1] is an item of [d2]. *)
Definition dict_eqb (d1 d2 : dict) : bool :=
  Nat.eqb (List.length d1) (List.length d2) &&
  forallb (fun kv =>
             match dict_lookup d2 (fst kv) with
             | Some v => value_eqb v (snd kv)
             | None => false
             end) d1.

Fixpoint list_eqb (l1 l2 : list value) : bool :=
  match l1, l2 with
  | [], [] => true
  | a :: l1', b :: l2' => value_eqb a b && list_eqb l1' l2'
  | _, _ => false
  end.

(** The positional arguments of a call: a tuple of atoms, or a one-element
    tuple holding a dict (the mapping given to [update]), or a one-element
    tuple holding a list of tuples of atoms (the sequence of pairs given to
    [update], whose elements need not all be pairs).  The state stores atoms
    only. *)
Inductive args_t : Type :=
| Atoms (vs : list value)
| Mapping (other : dict)
| Pairs (items : list (list value)).

(** An object sent as a key: a hashable atom, or an object that cannot be
    hashed. *)
Inductive key_obj : Type :=
| Hashable (v : value)
| Unhashable.

Definition kwargs_t : Type := list (string * value).

(** A client-supplied predicate, [test_fn(state, *args, **kwargs)]: the
    truth value of what it returns, or the exception it raises. *)
Definition testfn : Type := dict -> args_t -> kwargs_t -> result bool.

(** ** Requests

    A request is a dict with the fields named in [MSGS]; a field that is not
    sent is [None] here and a [KeyError] in the handler that indexes it. *)
Record msg : Type := mk_msg {
  m_action : option string;          (* MSGS.action *)
  m_args : option args_t;            (* MSGS.args *)
  m_kwargs : option kwargs_t;        (* MSGS.kwargs *)
  m_callable : option testfn;        (* MSGS.testfn *)
  m_key : option key_obj;            (* MSGS.key *)
  m_keys : option (list key_obj);    (* MSGS.keys, a tuple of keys *)
  m_value : option value;            (* MSGS.value *)
  m_item : option string             (* MSGS.attr_name *)
}.

(** The identity frame of the ROUTER socket, and a private endpoint
    [get_ipc_path(uuid)], named by its uuid. *)
Definition ident : Type := string.
Definition endpoint : Type := nat.

(** What is pickled and sent: on the ROUTER socket by [reply], on a PUSH
    socket by [push]. *)
Inductive payload : Type :=
| PVal (v : value)
| PDict (d : dict)
| PPair (k v : value)                      (* a 2-tuple, from [popitem] *)
| PBool (b : bool)
| PEndpoint (ipc_path : endpoint)
| PLock (ipc_path : endpoint) (st : dict)  (* [(ipc_path, self.state)] *)
| PException (e : exn)                     (* [ZProcServerException()] *)
| PMsg (m : msg)
| POpaque (repr : string).

(** ** The mutating operations of [dict], by name

    Each returns the result of the call (or the exception it raises) and the
    dict after the call. *)

Definition dict___setitem__ (args : args_t) (kwargs : kwargs_t) (d : dict)
  : result payload * dict :=
  match kwargs, args with
  | [], Atoms [k; v] => (Ok (PVal VNone), dict_setitem d k v)
  | _, _ => (Raise TypeError, d)
  end.

Definition dict___delitem__ (args : args_t) (kwargs : kwargs_t) (d : dict)
  : result payload * dict :=
  match kwargs, args with
  | [], Atoms [k] =>
      if dict_contains d k then (Ok (PVal VNone), dict_remove d k)
      else (Raise KeyError, d)
  | _, _ => (Raise TypeError, d)
  end.

Definition dict_setdefault_with (k default : value) (d : dict)
  : result payload * dict :=
  match dict_lookup d k with
  | Some v => (Ok (PVal v), d)
  | None => (Ok (PVal default), dict_setitem d k default)
  end.

Definition dict_setdefault (args : args_t) (kwargs : kwargs_t) (d : dict)
  : result payload * dict :=
  match kwargs, args with
  | [], Atoms [k] => dict_setdefault_with k VNone d
  | [], Atoms [k; default] => dict_setdefault_with k default d
  | _, _ => (Raise TypeError, d)
  end.

Definition dict_pop (args : args_t) (kwargs : kwargs_t) (d : dict)
  : result payload * dict :=
  match kwargs, args with
  | [], Atoms [k] =>
      match dict_lookup d k with
      | Some v => (Ok (PVal v), dict_remove d k)
      | None => (Raise KeyError, d)
      end
  | [], Atoms [k; default] =>
      match dict_lookup d k with
      | Some v => (Ok (PVal v), dict_remove d k)
      | None => (Ok (PVal default), d)
      end
  | [], Mapping _ | [], Pairs _ =>
      (* an empty dict is found empty before the key is hashed *)
      match d with
      | [] => (Raise KeyError, d)
      | _ :: _ => (Raise TypeError, d)
      end
  | _, _ => (Raise TypeError, d)
  end.

(** [popitem()] removes and returns the last inserted item. *)
Definition dict_popitem (args : args_t) (kwargs : kwargs_t) (d : dict)
  : result payload * dict :=
  match kwargs, args with
  | [], Atoms [] =>
      match rev d with
      | [] => (Raise KeyError, d)
      | (k, v) :: _ => (Ok (PPair k v), removelast d)
      end
  | _, _ => (Raise TypeError, d)
  end.

Definition dict_clear (args : args_t) (kwargs : kwargs_t) (d : dict)
  : result payload * dict :=
  match kwargs, args with
  | [], Atoms [] => (Ok (PVal VNone), [])
  | _, _ => (Raise TypeError, d)
  end.

Definition dict_update_from (other : dict) (d : dict) : dict :=
  fold_left (fun acc kv => dict_setitem acc (fst kv) (snd kv)) other d.

Definition dict_update_kwargs (kwargs : kwargs_t) (d : dict) : dict :=
  fold_left (fun acc kv => dict_setitem acc (VStr (fst kv)) (snd kv)) kwargs d.

(** [update] on a sequence: the elements are inserted one by one, and the
    first that is not a pair raises a [ValueError]; the pairs before it
    stay inserted. *)
Fixpoint dict_update_pairs (items : list (list value)) (d : dict)
  : result unit * dict :=
  match items with
  | [] => (Ok tt, d)
  | [k; v] :: rest => dict_update_pairs rest (dict_setitem d k v)
  | _ :: _ => (Raise ValueError, d)
  end.

(** [update([other], **kwargs)]: the mapping or the sequence of pairs is
    merged first, then the keyword arguments.  A string argument is
    iterated, so only the empty string is accepted; any other atom is not
    iterable; two positional arguments are one too many. *)
Definition dict_update (args : args_t) (kwargs : kwargs_t) (d : dict)
  : result payload * dict :=
  match args with
  | Atoms [] => (Ok (PVal VNone), dict_update_kwargs kwargs d)
  | Mapping other =>
      (Ok (PVal VNone), dict_update_kwargs kwargs (dict_update_from other d))
  | Pairs items =>
      match dict_update_pairs items d with
      | (Ok _, d') => (Ok (PVal VNone), dict_update_kwargs kwargs d')
      | (Raise e, d') => (Raise e, d')
      end
  | Atoms [VStr s] =>
      if String.eqb s "" then (Ok (PVal VNone), dict_update_kwargs kwargs d)
      else (Raise ValueError, d)
  | Atoms _ => (Raise TypeError, d)
  end.

Definition ACTIONS_THAT_MUTATE : list string :=
  [ "__setitem__"; "__delitem__"; "setdefault"; "pop"; "popitem"; "clear";
    "update" ].

Definition in_strings (x : string) (l : list string) : bool :=
  existsb (String.eqb x) l.

(** The attributes of the builtin [dict] outside [ACTIONS_THAT_MUTATE] are
    not code of this repository; the development takes them as given.
    [call_attr name args kwargs d] is the call of [getattr(d, name)] on [args] and [kwargs],
    followed by the pickling of its result, with the dict it leaves;
    [get_attr name d] is [getattr(d, name)], pickled. *)
Record dict_api : Type := mk_dict_api {
  call_attr : string -> args_t -> kwargs_t -> dict -> result payload * dict;
  get_attr : string -> dict -> result payload
}.

(** The call of a mutating attribute, by name; [None] for any other name. *)
Definition dict_mutate (attr_name : string)
  (args : args_t) (kwargs : kwargs_t) (d : dict)
  : option (result payload * dict) :=
  if String.eqb attr_name "__setitem__"
  then Some (dict___setitem__ args kwargs d)
  else if String.eqb attr_name "__delitem__"
  then Some (dict___delitem__ args kwargs d)
  else if String.eqb attr_name "setdefault"
  then Some (dict_setdefault args kwargs d)
  else if String.eqb attr_name "pop" then Some (dict_pop args kwargs d)
  else if String.eqb attr_name "popitem"
  then Some (dict_popitem args kwargs d)
  else if String.eqb attr_name "clear" then Some (dict_clear args kwargs d)
  else if String.eqb attr_name "update" then Some (dict_update args kwargs d)
  else None.

(** The call of [getattr(d, attr_name)] on [args] and [kwargs]. *)
Definition dict_call (py : dict_api) (attr_name : string)
  (args : args_t) (kwargs : kwargs_t) (d : dict) : result payload * dict :=
  match dict_mutate attr_name args kwargs d with
  | Some r => r
  | None => call_attr py attr_name args kwargs d
  end.

(** ** class Queue

    The deque, leftmost element first. *)

Definition Queue (A : Type) : Type := list A.

(** [put]: [appendleft]. *)
Definition put {A : Type} (something : A) (q : Queue A) : Queue A :=
  something :: q.

(** [get]: pops the rightmost element and returns nothing; [pop] on an
    empty deque raises an [IndexError]. *)
Definition get {A : Type} (q : Queue A) : result unit * Queue A :=
  match q with
  | [] => (Raise (UserError "IndexError"), q)
  | _ :: _ => (Ok tt, removelast q)
  end.

Definition clear {A : Type} (q : Queue A) : Queue A := [].

(** [drain]: copies the deque, clears it, and yields the copy popped from
    the right.  The result is the list of yielded items, in the order they
    are yielded, and the deque as [drain] leaves it. *)
Definition drain {A : Type} (q : Queue A) : list A * Queue A :=
  (rev q, clear q).

(** [for i in to_put_back: queue.put(i)]. *)
Definition put_all {A : Type} (to_put_back : list A) (q : Queue A) : Queue A :=
  fold_left (fun acc i => put i acc) to_put_back q.

(** ** Watcher registries *)

(** A [defaultdict(Queue)]: the keys in insertion order, each with its queue. *)
Definition registry (K A : Type) : Type := list (K * Queue A).

(** [r[k].put(x)]: a missing key gets an empty queue first. *)
Fixpoint registry_put {K A : Type} (eqb : K -> K -> bool)
  (k : K) (x : A) (r : registry K A) : registry K A :=
  match r with
  | [] => [(k, put x [])]
  | (k', q) :: rest =>
      if eqb k' k then (k', put x q) :: rest
      else (k', q) :: registry_put eqb k x rest
  end.

(** The key of a change watcher: the tuple of watched keys, or ['_any_']. *)
Inductive change_key : Type :=
| AnyKey
| Keys (keys : list value).

Definition change_key_eqb (a b : change_key) : bool :=
  match a, b with
  | AnyKey, AnyKey => true
  | Keys k1, Keys k2 => list_eqb k1 k2
  | _, _ => false
  end.

(** The baseline of a change watcher: a copy of the state, or the list
    [get_keys_cmp(keys)]. *)
Inductive baseline : Type :=
| BState (d : dict)
| BValues (l : list value).

(** [old != new]; a list never equals a dict. *)
Definition baseline_neqb (old new : baseline) : bool :=
  match old, new with
  | BState d1, BState d2 => negb (dict_eqb d1 d2)
  | BValues l1, BValues l2 => negb (list_eqb l1 l2)
  | _, _ => true
  end.

Definition change_entry : Type := endpoint * baseline.
Definition val_change_entry : Type := endpoint * value.
Definition equals_entry : Type := value * value * endpoint.

(** An equals watcher as it is put in the queue: [(key, value, ipc_path)],
    where the key is the object that was sent.  The sweep that follows the
    [put] drains the queue, so an entry whose key cannot be hashed does not
    outlive the request that put it: between two requests the queue holds
    entries with hashable keys, and the server object below is typed so. *)
Definition equals_item : Type := key_obj * value * endpoint.

Definition queued (e : equals_entry) : equals_item :=
  match e with
  | (key, value_, ipc_path) => (Hashable key, value_, ipc_path)
  end.
Definition condition_entry : Type := endpoint * testfn * args_t * kwargs_t.

(** ** class ZProcServer *)

Record ZProcServer : Type := mk_server {
  state : dict;
  condition_handlers : Queue condition_entry;
  equals_handlers : Queue equals_entry;
  val_change_handlers : registry value val_change_entry;
  change_handlers : registry change_key change_entry;
  uuid_next : nat                      (* the next value of [uuid1()] *)
}.

(** [ZProcServer(bind_ipc_path)]. *)
Definition new_server : ZProcServer := mk_server [] [] [] [] [] 0.

(** What the server sends, in the order it sends it. *)
Inductive event : Type :=
| Reply (to : ident) (m : payload)         (* [self.reply(ident, msg)] *)
| Push (ipc_path : endpoint) (m : payload) (* [self.push(ipc_path, msg)] *)
| ResolveAll.                              (* [resolve_all_handlers] entered *)

(** ** The handler monad: server object, exception, log of what is sent *)

Definition M (A : Type) : Type :=
  ZProcServer -> result A * ZProcServer * list event.

Definition ret {A : Type} (a : A) : M A := fun s => (Ok a, s, []).

Definition raise {A : Type} (e : exn) : M A := fun s => (Raise e, s, []).

Definition bind {A B : Type} (m : M A) (f : A -> M B) : M B :=
  fun s =>
    match m s with
    | (Ok a, s1, o1) =>
        match f a s1 with
        | (r, s2, o2) => (r, s2, o1 ++ o2)
        end
    | (Raise e, s1, o1) => (Raise e, s1, o1)
    end.

Declare Scope py_scope.
Delimit Scope py_scope with py.
Notation "x <- m ;; k" := (bind m (fun x => k))
  (at level 61, m at next level, right associativity) : py_scope.
Notation "m ;; k" := (bind m (fun _ => k))
  (at level 61, right associativity) : py_scope.
Open Scope py_scope.

Definition gets {A : Type} (f : ZProcServer -> A) : M A :=
  fun s => (Ok (f s), s, []).

Definition modify (f : ZProcServer -> ZProcServer) : M unit :=
  fun s => (Ok tt, f s, []).

Definition emit (e : event) : M unit := fun s => (Ok tt, s, [e]).

(** [msg[field]]. *)
Definition index {A : Type} (field : option A) : M A :=
  match field with
  | Some a => ret a
  | None => raise KeyError
  end.

Definition set_state (d : dict) (s : ZProcServer) : ZProcServer :=
  mk_server d (condition_handlers s) (equals_handlers s)
    (val_change_handlers s) (change_handlers s) (uuid_next s).

Definition set_condition_handlers (q : Queue condition_entry)
  (s : ZProcServer) : ZProcServer :=
  mk_server (state s) q (equals_handlers s)
    (val_change_handlers s) (change_handlers s) (uuid_next s).

Definition set_equals_handlers (q : Queue equals_entry)
  (s : ZProcServer) : ZProcServer :=
  mk_server (state s) (condition_handlers s) q
    (val_change_handlers s) (change_handlers s) (uuid_next s).

Definition set_val_change_handlers (r : registry value val_change_entry)
  (s : ZProcServer) : ZProcServer :=
  mk_server (state s) (condition_handlers s) (equals_handlers s)
    r (change_handlers s) (uuid_next s).

Definition set_change_handlers (r : registry change_key change_entry)
  (s : ZProcServer) : ZProcServer :=
  mk_server (state s) (condition_handlers s) (equals_handlers s)
    (val_change_handlers s) r (uuid_next s).

Definition set_uuid_next (n : nat) (s : ZProcServer) : ZProcServer :=
  mk_server (state s) (condition_handlers s) (equals_handlers s)
    (val_change_handlers s) (change_handlers s) n.

(** [get_random_ipc()]: the endpoint of the next uuid. *)
Definition get_random_ipc : M endpoint :=
  fun s => (Ok (uuid_next s), set_uuid_next (S (uuid_next s)) s, []).

Definition reply (to : ident) (m : payload) : M unit := emit (Reply to m).

Definition push (ipc_path : endpoint) (m : payload) : M unit :=
  emit (Push ipc_path m).

(** [get_keys_cmp]. *)
Definition get_keys_cmp (st : dict) (state_keys : list value) : list value :=
  map (fun state_key => dict_get st state_key) state_keys.

Definition lift {A : Type} (r : result A) : M A :=
  match r with
  | Ok a => ret a
  | Raise e => raise e
  end.

(** [hash(key)], as a dict computes it before it looks the key up: an
    object that cannot be hashed raises a [TypeError]. *)
Definition hash_key (key : key_obj) : result value :=
  match key with
  | Hashable v => Ok v
  | Unhashable => Raise TypeError
  end.

(** The hash of a tuple hashes each of its items. *)
Fixpoint hash_keys (keys : list key_obj) : result (list value) :=
  match keys with
  | [] => Ok []
  | key :: rest =>
      match hash_key key, hash_keys rest with
      | Ok v, Ok vs => Ok (v :: vs)
      | Raise e, _ => Raise e
      | Ok _, Raise e => Raise e
      end
  end.

(** [self.state.get(key)]. *)
Definition state_get (key : key_obj) : M value :=
  k <- lift (hash_key key) ;;
  st <- gets state ;;
  ret (dict_get st k).

(** ** The resolver sweeps *)

(** The body of [for ipc_path, old in change_handler_queue.drain()]. *)
Fixpoint change_loop (items : list change_entry) (new : baseline)
  (to_put_back : list change_entry) : M (list change_entry) :=
  match items with
  | [] => ret to_put_back
  | (ipc_path, old) :: rest =>
      if baseline_neqb old new then
        st <- gets state ;;
        push ipc_path (PDict st) ;;
        change_loop rest new to_put_back
      else change_loop rest new (to_put_back ++ [(ipc_path, old)])
  end.

(** The body of [for keys, change_handler_queue in
    self.change_handlers.items()].  [self.change_handlers[keys]] is the queue
    object being visited, so each queue is rebuilt in place. *)
Fixpoint change_sweep (items : registry change_key change_entry)
  : M (registry change_key change_entry) :=
  match items with
  | [] => ret []
  | (keys, change_handler_queue) :: rest =>
      st <- gets state ;;
      let new := match keys with
                 | AnyKey => BState st
                 | Keys ks => BValues (get_keys_cmp st ks)
                 end in
      let '(drained, emptied) := drain change_handler_queue in
      to_put_back <- change_loop drained new [] ;;
      rest' <- change_sweep rest ;;
      ret ((keys, put_all to_put_back emptied) :: rest')
  end.

Definition resolve_change_handlers : M unit :=
  r <- gets change_handlers ;;
  r' <- change_sweep r ;;
  modify (set_change_handlers r').

Fixpoint val_change_loop (items : list val_change_entry) (key new : value)
  (to_put_back : list val_change_entry) : M (list val_change_entry) :=
  match items with
  | [] => ret to_put_back
  | (ipc_path, old) :: rest =>
      if negb (value_eqb old new) then
        st <- gets state ;;
        push ipc_path (PVal (dict_get st key)) ;;
        val_change_loop rest key new to_put_back
      else val_change_loop rest key new (to_put_back ++ [(ipc_path, old)])
  end.

Fixpoint val_change_sweep (items : registry value val_change_entry)
  : M (registry value val_change_entry) :=
  match items with
  | [] => ret []
  | (key, handler_list) :: rest =>
      st <- gets state ;;
      let new := dict_get st key in
      let '(drained, emptied) := drain handler_list in
      to_put_back <- val_change_loop drained key new [] ;;
      rest' <- val_change_sweep rest ;;
      ret ((key, put_all to_put_back emptied) :: rest')
  end.

Definition resolve_val_change_handlers : M unit :=
  r <- gets val_change_handlers ;;
  r' <- val_change_sweep r ;;
  modify (set_val_change_handlers r').

(** [self.state.get(key)] is called inside the loop: the [TypeError] of a
    key that cannot be hashed leaves the loop, and
    [resolve_equals_handler], at once.  A key that was looked up is
    hashable, and is put back as such. *)
Fixpoint equals_loop (items : list equals_item)
  (to_put_back : list equals_entry) : M (list equals_entry) :=
  match items with
  | [] => ret to_put_back
  | (key, value, ipc_path) :: rest =>
      k <- lift (hash_key key) ;;
      st <- gets state ;;
      if value_eqb (dict_get st k) value then
        push ipc_path (PBool true) ;;
        equals_loop rest to_put_back
      else equals_loop rest (to_put_back ++ [(k, value, ipc_path)])
  end.

(** The body of [resolve_equals_handler], on the queue as it is when the
    sweep starts. *)
Definition equals_sweep (q : Queue equals_item) : M unit :=
  let '(drained, _) := drain q in
  modify (set_equals_handlers []) ;;   (* [drain] has cleared the deque *)
  to_put_back <- equals_loop drained [] ;;
  q' <- gets equals_handlers ;;
  modify (set_equals_handlers (put_all to_put_back q')).

Definition resolve_equals_handler : M unit :=
  q <- gets equals_handlers ;;
  equals_sweep (map queued q).

(** The predicate is called inside the loop: an exception it raises leaves
    the loop, and [resolve_condition_handlers], at once. *)
Fixpoint condition_loop (items : list condition_entry)
  (to_put_back : list condition_entry) : M (list condition_entry) :=
  match items with
  | [] => ret to_put_back
  | (ipc_path, test_fn, args, kwargs) :: rest =>
      st <- gets state ;;
      truthy <- lift (test_fn st args kwargs) ;;
      if (truthy : bool) then
        push ipc_path (PDict st) ;;
        condition_loop rest to_put_back
      else
        condition_loop rest (to_put_back ++ [(ipc_path, test_fn, args, kwargs)])
  end.

Definition resolve_condition_handlers : M unit :=
  q <- gets condition_handlers ;;
  let '(drained, emptied) := drain q in
  modify (set_condition_handlers emptied) ;;
  to_put_back <- condition_loop drained [] ;;
  q' <- gets condition_handlers ;;
  modify (set_condition_handlers (put_all to_put_back q')).

Definition resolve_all_handlers : M unit :=
  emit ResolveAll ;;
  resolve_change_handlers ;;
  resolve_condition_handlers ;;
  resolve_val_change_handlers ;;
  resolve_equals_handler.

(** ** The request handlers *)

Definition send_state (ident_ : ident) (m : msg) : M unit :=
  st <- gets state ;;
  reply ident_ (PDict st).

(** [locked_state] is what the PULL socket bound at the endpoint receives. *)
Definition lock_state (ident_ : ident) (m : msg) (locked_state : dict)
  : M unit :=
  ipc_path <- get_random_ipc ;;
  st <- gets state ;;
  reply ident_ (PLock ipc_path st) ;;
  if negb (dict_eqb locked_state st) then
    modify (set_state locked_state) ;;
    resolve_all_handlers
  else ret tt.

(** [getattr(self.state, attr_name)] called on the arguments; the state is
    mutated in place. *)
Definition call_state (py : dict_api) (attr_name : string)
  (args : args_t) (kwargs : kwargs_t) : M payload :=
  fun s =>
    match dict_call py attr_name args kwargs (state s) with
    | (r, d) => (r, set_state d s, [])
    end.

(** [old != self.state], where [old] is [None] for a read-only attribute. *)
Definition old_neqb (old : option dict) (st : dict) : bool :=
  match old with
  | Some d => negb (dict_eqb d st)
  | None => true
  end.

Definition get_state_callable (py : dict_api) (ident_ : ident) (m : msg)
  : M unit :=
  let args := match m_args m with Some a => a | None => Atoms [] end in
  let kwargs := match m_kwargs m with Some k => k | None => [] end in
  attr_name <- index (m_item m) ;;
  let can_mutate := in_strings attr_name ACTIONS_THAT_MUTATE in
  st <- gets state ;;
  let old := if can_mutate then Some st else None in
  result_ <- call_state py attr_name args kwargs ;;
  reply ident_ result_ ;;
  st' <- gets state ;;
  if can_mutate && old_neqb old st' then resolve_all_handlers else ret tt.

Definition get_state_attr (py : dict_api) (ident_ : ident) (m : msg)
  : M unit :=
  attr_name <- index (m_item m) ;;
  st <- gets state ;;
  attr <- lift (get_attr py attr_name st) ;;
  reply ident_ attr.

Definition add_change_handler (ident_ : ident) (m : msg) : M unit :=
  ipc_path <- get_random_ipc ;;
  reply ident_ (PEndpoint ipc_path) ;;
  keys <- index (m_keys m) ;;
  st <- gets state ;;
  match keys with
  | _ :: _ =>
      (* [self.change_handlers[keys]] hashes the tuple first *)
      ks <- lift (hash_keys keys) ;;
      r <- gets change_handlers ;;
      modify (set_change_handlers
                (registry_put change_key_eqb (Keys ks)
                   (ipc_path, BValues (get_keys_cmp st ks)) r))
  | [] =>
      r <- gets change_handlers ;;
      modify (set_change_handlers
                (registry_put change_key_eqb AnyKey (ipc_path, BState st) r))
  end ;;
  resolve_change_handlers.

Definition add_val_change_handler (ident_ : ident) (m : msg) : M unit :=
  ipc_path <- get_random_ipc ;;
  reply ident_ (PEndpoint ipc_path) ;;
  key <- index (m_key m) ;;
  old_value <- match m_value m with
               | Some v => ret v
               | None => state_get key
               end ;;
  (* [self.val_change_handlers[key]] hashes the key *)
  k <- lift (hash_key key) ;;
  r <- gets val_change_handlers ;;
  modify (set_val_change_handlers
            (registry_put value_eqb k (ipc_path, old_value) r)) ;;
  resolve_val_change_handlers.

(** The entry is put in the queue with the key as it was sent, and the
    sweep runs on the queue that holds it. *)
Definition add_equals_handler (ident_ : ident) (m : msg) : M unit :=
  ipc_path <- get_random_ipc ;;
  reply ident_ (PEndpoint ipc_path) ;;
  key <- index (m_key m) ;;
  value_ <- index (m_value m) ;;
  q <- gets equals_handlers ;;
  equals_sweep (put (key, value_, ipc_path) (map queued q)).

Definition add_condition_handler (ident_ : ident) (m : msg) : M unit :=
  ipc_path <- get_random_ipc ;;
  reply ident_ (PEndpoint ipc_path) ;;
  test_fn <- index (m_callable m) ;;
  args <- index (m_args m) ;;
  kwargs <- index (m_kwargs m) ;;
  q <- gets condition_handlers ;;
  modify (set_condition_handlers (put (ipc_path, test_fn, args, kwargs) q)) ;;
  resolve_condition_handlers.

(** ** The dispatcher: [getattr(server, msg[action])(ident, msg)] *)

(** The eight handlers, the methods of the server that [class ACTIONS]
    names. *)
Definition action_table : list string :=
  [ "send_state"; "get_state_attr"; "get_state_callable"; "lock_state";
    "add_change_handler"; "add_val_change_handler"; "add_equals_handler";
    "add_condition_handler" ].

(** The other attributes of a [ZProcServer] object, apart from [reply],
    [push] and [__subclasshook__]: methods of another arity, instance
    attributes, and what [object] provides (CPython 3).  Called on
    [(ident, msg)], where [ident] is a bytes object, each raises a
    [TypeError].  [push] takes the two arguments, and raises when it binds
    a socket to the identity frame, which is no endpoint: nothing is
    sent. *)
Definition uncallable_attributes : list string :=
  [ "__init__"; "wait_req"; "get_keys_cmp";
    "resolve_change_handlers"; "resolve_val_change_handlers";
    "resolve_equals_handler"; "resolve_condition_handlers";
    "resolve_all_handlers";
    "state"; "state_lock_ident"; "condition_handlers"; "equals_handlers";
    "val_change_handlers"; "change_handlers"; "ctx"; "sock";
    "__class__"; "__delattr__"; "__dict__"; "__dir__"; "__doc__"; "__eq__";
    "__format__"; "__ge__"; "__getattribute__"; "__gt__"; "__hash__";
    "__init_subclass__"; "__le__"; "__lt__"; "__module__"; "__ne__";
    "__new__"; "__reduce__"; "__reduce_ex__"; "__repr__"; "__setattr__";
    "__sizeof__"; "__str__"; "__weakref__" ].

Definition server_call (py : dict_api) (action : string)
  (ident_ : ident) (m : msg) (locked_state : dict) : M unit :=
  if String.eqb action "send_state" then send_state ident_ m
  else if String.eqb action "get_state_attr" then get_state_attr py ident_ m
  else if String.eqb action "get_state_callable"
       then get_state_callable py ident_ m
  else if String.eqb action "lock_state" then lock_state ident_ m locked_state
  else if String.eqb action "add_change_handler"
       then add_change_handler ident_ m
  else if String.eqb action "add_val_change_handler"
       then add_val_change_handler ident_ m
  else if String.eqb action "add_equals_handler"
       then add_equals_handler ident_ m
  else if String.eqb action "add_condition_handler"
       then add_condition_handler ident_ m
  else if String.eqb action "reply" then reply ident_ (PMsg m)
  else if String.eqb action "push" then raise (UserError "ZMQError")
  else if String.eqb action "__subclasshook__" then ret tt
  else if in_strings action uncallable_attributes then raise TypeError
  else raise AttributeError.

(** What one iteration of the main loop receives: the request, and the state
    a locking client sends back should the handler wait for one. *)
Record request : Type := mk_request {
  r_ident : ident;
  r_msg : msg;
  r_locked_state : dict
}.

(** One iteration of the [while True] loop of [state_server]. *)
Definition state_server_step (py : dict_api) (s : ZProcServer) (r : request)
  : ZProcServer * list event :=
  match (action <- index (m_action (r_msg r)) ;;
         server_call py action (r_ident r) (r_msg r) (r_locked_state r)) s with
  | (Ok _, s', o) => (s', o)
  | (Raise e, s', o) => (s', o ++ [Reply (r_ident r) (PException e)])
  end.

(** The loop, over the requests received so far. *)
Fixpoint state_server_loop (py : dict_api) (s : ZProcServer)
  (requests : list request) : ZProcServer * list event :=
  match requests with
  | [] => (s, [])
  | r :: rest =>
      match state_server_step py s r with
      | (s1, o1) =>
          match state_server_loop py s1 rest with
          | (s2, o2) => (s2, o1 ++ o2)
          end
      end
  end.

(** ** Vocabulary of the properties *)

(** The entries of a queue in registration order, oldest first. *)
Definition fifo {A : Type} (q : Queue A) : list A := rev q.

(** What a change watcher under [keys] is compared with. *)
Definition change_new (st : dict) (keys : change_key) : baseline :=
  match keys with
  | AnyKey => BState st
  | Keys ks => BValues (get_keys_cmp st ks)
  end.

Definition change_fires (st : dict) (keys : change_key) (e : change_entry)
  : bool :=
  baseline_neqb (snd e) (change_new st keys).

Definition val_change_fires (st : dict) (key : value) (e : val_change_entry)
  : bool :=
  negb (value_eqb (snd e) (dict_get st key)).

Definition equals_fires (st : dict) (e : equals_entry) : bool :=
  value_eqb (dict_get st (fst (fst e))) (snd (fst e)).

Definition condition_call (st : dict) (e : condition_entry) : result bool :=
  match e with
  | (_, test_fn, args, kwargs) => test_fn st args kwargs
  end.

Definition condition_fires (st : dict) (e : condition_entry) : bool :=
  match condition_call st e with
  | Ok b => b
  | Raise _ => false
  end.

Definition condition_raises (st : dict) (e : condition_entry) : bool :=
  match condition_call st e with
  | Ok _ => false
  | Raise _ => true
  end.

Definition condition_endpoint (e : condition_entry) : endpoint :=
  fst (fst (fst e)).

Definition equals_endpoint (e : equals_entry) : endpoint := snd e.

(** The notifications of one sweep of a registry, and what the sweep leaves
    in it. *)
Definition change_notifications (st : dict)
  (r : registry change_key change_entry) : list event :=
  flat_map (fun kq =>
              map (fun e => Push (fst e) (PDict st))
                (filter (change_fires st (fst kq)) (fifo (snd kq)))) r.

Definition change_kept (st : dict) (r : registry change_key change_entry)
  : registry change_key change_entry :=
  map (fun kq =>
         (fst kq, filter (fun e => negb (change_fires st (fst kq) e)) (snd kq)))
    r.

Definition val_change_notifications (st : dict)
  (r : registry value val_change_entry) : list event :=
  flat_map (fun kq =>
              map (fun e => Push (fst e) (PVal (dict_get st (fst kq))))
                (filter (val_change_fires st (fst kq)) (fifo (snd kq)))) r.

Definition val_change_kept (st : dict) (r : registry value val_change_entry)
  : registry value val_change_entry :=
  map (fun kq =>
         (fst kq,
          filter (fun e => negb (val_change_fires st (fst kq) e)) (snd kq)))
    r.

Definition equals_notifications (st : dict) (q : Queue equals_entry)
  : list event :=
  map (fun e => Push (equals_endpoint e) (PBool true))
    (filter (equals_fires st) (fifo q)).

Definition equals_kept (st : dict) (q : Queue equals_entry)
  : Queue equals_entry :=
  filter (fun e => negb (equals_fires st e)) q.

Definition condition_notifications (st : dict) (q : Queue condition_entry)
  : list event :=
  map (fun e => Push (condition_endpoint e) (PDict st))
    (filter (condition_fires st) (fifo q)).

Definition condition_kept (st : dict) (q : Queue condition_entry)
  : Queue condition_entry :=
  filter (fun e => negb (condition_fires st e)) q.

(** The endpoints with a pending watcher. *)
Definition registry_entries {K A : Type} (r : registry K A) : list A :=
  flat_map (fun kq => snd kq) r.

Definition endpoints (s : ZProcServer) : list endpoint :=
  map fst (registry_entries (change_handlers s)) ++
  map condition_endpoint (condition_handlers s) ++
  map fst (registry_entries (val_change_handlers s)) ++
  map equals_endpoint (equals_handlers s).

(** The endpoints a trace pushes on, in order. *)
Definition pushed (o : list event) : list endpoint :=
  flat_map (fun ev => match ev with
                      | Push ipc_path _ => [ipc_path]
                      | _ => []
                      end) o.

(** A state is a dict: its keys are pairwise distinct. *)
Definition dict_wf (d : dict) : Prop := NoDup (map fst d).

(** Between requests, pending endpoints are pairwise distinct and were all
    minted already. *)
Definition server_wf (s : ZProcServer) : Prop :=
  NoDup (endpoints s) /\
  (forall e, In e (endpoints s) -> e < uuid_next s).

(** The endpoints minted between two values of the uuid counter. *)
Definition minted (before after : nat) : list endpoint :=
  seq before (after - before).

(** The exception that ends a run of the condition loop over [items], if
    any, and the items the loop visits before it. *)
Fixpoint first_raise (st : dict) (items : list condition_entry)
  : option exn :=
  match items with
  | [] => None
  | e :: rest =>
      match condition_call st e with
      | Raise x => Some x
      | Ok _ => first_raise st rest
      end
  end.

Fixpoint before_raise (st : dict) (items : list condition_entry)
  : list condition_entry :=
  match items with
  | [] => []
  | e :: rest =>
      if condition_raises st e then [] else e :: before_raise st rest
  end.

(** What a whole sweep leaves and sends when no predicate raises. *)
Definition swept (s : ZProcServer) : ZProcServer :=
  mk_server (state s)
    (condition_kept (state s) (condition_handlers s))
    (equals_kept (state s) (equals_handlers s))
    (val_change_kept (state s) (val_change_handlers s))
    (change_kept (state s) (change_handlers s))
    (uuid_next s).

Definition sweep_notifications (s : ZProcServer) : list event :=
  change_notifications (state s) (change_handlers s) ++
  condition_notifications (state s) (condition_handlers s) ++
  val_change_notifications (state s) (val_change_handlers s) ++
  equals_notifications (state s) (equals_handlers s).

(** What a sweep leaves and sends when a predicate raises: the change
    registry is swept, the condition queue is left drained, and the two
    registries after it are not reached. *)
Definition aborted (s : ZProcServer) : ZProcServer :=
  mk_server (state s) [] (equals_handlers s) (val_change_handlers s)
    (change_kept (state s) (change_handlers s)) (uuid_next s).

Definition aborted_notifications (s : ZProcServer) : list event :=
  change_notifications (state s) (change_handlers s) ++
  map (fun e => Push (condition_endpoint e) (PDict (state s)))
    (filter (condition_fires (state s))
       (before_raise (state s) (fifo (condition_handlers s)))).

(** The change registry once the watcher of a request is put in it. *)
Definition change_registered (keys : list value) (s : ZProcServer)
  : registry change_key change_entry :=
  match keys with
  | _ :: _ =>
      registry_put change_key_eqb (Keys keys)
        (uuid_next s, BValues (get_keys_cmp (state s) keys))
        (change_handlers s)
  | [] =>
      registry_put change_key_eqb AnyKey (uuid_next s, BState (state s))
        (change_handlers s)
  end.

Definition val_change_registered (key : value) (baseline_ : option value)
  (s : ZProcServer) : registry value val_change_entry :=
  registry_put value_eqb key
    (uuid_next s,
     match baseline_ with
     | Some v => v
     | None => dict_get (state s) key
     end)
    (val_change_handlers s).

(** Conservation of endpoints between two server states: what was pending
    or has been minted since is, counted with multiplicity, what has been
    pushed on, what is pending now, and what was dropped. *)
Definition conserves (s s' : ZProcServer) (o : list event) : Prop :=
  uuid_next s <= uuid_next s' /\
  exists dropped,
    Permutation (endpoints s ++ minted (uuid_next s) (uuid_next s'))
      (pushed o ++ endpoints s' ++ dropped).

(** ** Requests of the properties *)

(** A request that calls a mutating attribute of the state through
    [get_state_callable]. *)
Definition is_mutation (r : request) : Prop :=
  m_action (r_msg r) = Some "get_state_callable" /\
  exists name,
    m_item (r_msg r) = Some name /\ In name ACTIONS_THAT_MUTATE.

(** The operation a request names, applied to a local reference dict; a
    call that raises is caught and the next one made. *)
Definition reference_apply (d : dict) (r : request) : dict :=
  match m_item (r_msg r) with
  | Some name =>
      match dict_mutate name
              (match m_args (r_msg r) with Some a => a | None => Atoms [] end)
              (match m_kwargs (r_msg r) with Some k => k | None => [] end)
              d with
      | Some (_, d') => d'
      | None => d
      end
  | None => d
  end.

(** A watcher entry pending under a key of a registry. *)
Definition pending {K A : Type} (r : registry K A) (k : K) (e : A) : Prop :=
  exists q, In (k, q) r /\ In e q.

(** The watcher registrations, and the fields each indexes in its request. *)
Definition registration_actions : list string :=
  [ "add_change_handler"; "add_val_change_handler"; "add_equals_handler";
    "add_condition_handler" ].

Definition is_some {A : Type} (x : option A) : bool :=
  match x with
  | Some _ => true
  | None => false
  end.

Definition required_fields (action : string) (m : msg) : bool :=
  if String.eqb action "add_change_handler" then is_some (m_keys m)
  else if String.eqb action "add_val_change_handler" then is_some (m_key m)
  else if String.eqb action "add_equals_handler"
       then is_some (m_key m) && is_some (m_value m)
  else if String.eqb action "add_condition_handler"
       then is_some (m_callable m) && is_some (m_args m) &&
            is_some (m_kwargs m)
  else false.

(** The keys a registration hashes can be hashed: the tuple of keys of a
    change watcher (an empty tuple is not hashed), the key of a
    value-change or an equals watcher. *)
Definition hashable_keys (action : string) (m : msg) : bool :=
  if String.eqb action "add_change_handler"
  then match m_keys m with
       | Some keys =>
           match hash_keys keys with
           | Ok _ => true
           | Raise _ => false
           end
       | None => true
       end
  else if String.eqb action "add_val_change_handler" ||
          String.eqb action "add_equals_handler"
  then match m_key m with
       | Some Unhashable => false
       | _ => true
       end
  else true.

(** The sweep that follows the registration of a condition watcher
    returns: no predicate of the queue, the new one included, raises. *)
Definition registration_returns (s : ZProcServer) (m : msg) : Prop :=
  match m_callable m, m_args m, m_kwargs m with
  | Some test_fn, Some args, Some kwargs =>
      first_raise (state s)
        (fifo (put (uuid_next s, test_fn, args, kwargs)
                 (condition_handlers s))) = None
  | _, _, _ => True
  end.

(** The replies of a trace, in order. *)
Definition replies (o : list event) : list event :=
  filter (fun ev => match ev with
                    | Reply _ _ => true
                    | _ => false
                    end) o.

(** The attributes of the server, outside the action table, whose call on
    [(ident, msg)] returns. *)
Definition returning_attributes : list string :=
  [ "reply"; "__subclasshook__" ].

(** A registry with each queue in registration order. *)
Definition registry_fifo {K A : Type} (r : registry K A)
  : list (K * list A) :=
  map (fun kq => (fst kq, fifo (snd kq))) r.

(** What the operation a request names returns on a local reference dict,
    or the exception it raises there. *)
Definition reference_result (d : dict) (r : request)
  : option (result payload) :=
  match m_item (r_msg r) with
  | Some name =>
      match dict_mutate name
              (match m_args (r_msg r) with Some a => a | None => Atoms [] end)
              (match m_kwargs (r_msg r) with Some k => k | None => [] end)
              d with
      | Some (res, _) => Some res
      | None => None
      end
  | None => None
  end.

(** The operation a request names raises on a local reference dict. *)
Definition call_raises (d : dict) (r : request) : bool :=
  match reference_result d r with
  | Some (Raise _) => true
  | _ => false
  end.

(** The keys of a registry, in the order in which they were first used. *)
Definition registry_keys {K A : Type} (r : registry K A) : list K :=
  map fst r.

(** ** Sample requests and predicates *)

(** A fragment of the builtin dict outside the mutating attributes: [get]. *)
Definition py_dict : dict_api :=
  mk_dict_api
    (fun name args kwargs d =>
       if String.eqb name "get" then
         match kwargs, args with
         | [], Atoms [k] => (Ok (PVal (dict_get d k)), d)
         | [], Atoms [k; default] =>
             (Ok (PVal match dict_lookup d k with
                       | Some v => v
                       | None => default
                       end), d)
         | _, _ => (Raise TypeError, d)
         end
       else (Raise AttributeError, d))
    (fun name d => Raise AttributeError).

Definition no_msg : msg :=
  mk_msg None None None None None None None None.

Definition action_msg (action : string) : msg :=
  mk_msg (Some action) None None None None None None None.

Definition call_msg (item : string) (args : args_t) : msg :=
  mk_msg (Some "get_state_callable") (Some args) None None None None None
    (Some item).

Definition change_msg (keys : list value) : msg :=
  mk_msg (Some "add_change_handler") None None None None
    (Some (map Hashable keys)) None None.

Definition val_change_msg (key : value) (baseline_ : option value) : msg :=
  mk_msg (Some "add_val_change_handler") None None None
    (Some (Hashable key)) None baseline_ None.

Definition equals_msg (key v : value) : msg :=
  mk_msg (Some "add_equals_handler") None None None (Some (Hashable key))
    None (Some v) None.

(** An equals registration whose key is an object that cannot be hashed. *)
Definition unhashable_equals_msg (v : value) : msg :=
  mk_msg (Some "add_equals_handler") None None None (Some Unhashable)
    None (Some v) None.

Definition condition_msg (test_fn : testfn) : msg :=
  mk_msg (Some "add_condition_handler") (Some (Atoms [])) (Some [])
    (Some test_fn) None None None None.

Definition req (i : ident) (m : msg) : request := mk_request i m [].

Definition key_x : value := VStr "x".
Definition key_y : value := VStr "y".

(** [lambda state: False]. *)
Definition never : testfn := fun _ _ _ => Ok false.

(** [lambda state: state['x'] > 0]: a [KeyError] while [x] is absent. *)
Definition x_positive : testfn :=
  fun st _ _ =>
    match dict_lookup st key_x with
    | Some (VInt z) => Ok (Z.ltb 0 z)
    | Some _ => Raise TypeError
    | None => Raise KeyError
    end.

(** [lambda state: 1 / state.get('x', 1) > 1] on integers: a
    [ZeroDivisionError] while [x] is [0]. *)
Definition x_inverse : testfn :=
  fun st _ _ =>
    match dict_lookup st key_x with
    | Some (VInt 0) => Raise (UserError "ZeroDivisionError")
    | _ => Ok false
    end.

(** [lambda state: state.get('x') == 1]. *)
Definition x_is_one : testfn :=
  fun st _ _ => Ok (value_eqb (dict_get st key_x) (VInt 1)).

(** Servers with one pending watcher, on endpoint 0: a change watcher on
    [x], one on any change, an equals watcher on [x == 1], and a condition
    watcher. *)
Definition change_on_x : ZProcServer :=
  fst (state_server_step py_dict new_server (req "w" (change_msg [key_x]))).

Definition change_on_any : ZProcServer :=
  fst (state_server_step py_dict new_server (req "w" (change_msg []))).

Definition equals_x_one : ZProcServer :=
  fst (state_server_step py_dict new_server
         (req "w" (equals_msg key_x (VInt 1)))).

Definition condition_x_one : ZProcServer :=
  fst (state_server_step py_dict new_server
         (req "w" (condition_msg x_is_one))).

(** * Properties *)

(** ** Values and dicts *)

Lemma value_eqb_eq (a b : value) : value_eqb a b = true <-> a = b.
Proof.
  destruct a, b; simpl; split; intro H; try discriminate; try reflexivity.
  - apply Z.eqb_eq in H. now subst.
  - injection H as ->. apply Z.eqb_refl.
  - apply String.eqb_eq in H. now subst.
  - injection H as ->. apply String.eqb_refl.
Qed.

Lemma value_eqb_refl (a : value) : value_eqb a a = true.
Proof. now apply value_eqb_eq. Qed.

Lemma value_eqb_neq (a b : value) : value_eqb a b = false <-> a <> b.
Proof.
  split.
  - intros H E. apply value_eqb_eq in E. congruence.
  - intro H. destruct (value_eqb a b) eqn:E; [|reflexivity].
    apply value_eqb_eq in E. contradiction.
Qed.

Lemma value_eqb_sym (a b : value) : value_eqb a b = value_eqb b a.
Proof.
  destruct (value_eqb b a) eqn:E.
  - apply value_eqb_eq in E. subst. apply value_eqb_refl.
  - apply value_eqb_neq. apply value_eqb_neq in E. congruence.
Qed.

Lemma dict_lookup_not_in (d : dict) (k : value) :
  ~ In k (map fst d) -> dict_lookup d k = None.
Proof.
  induction d as [|[k' v] d IH]; simpl; intro H; [reflexivity|].
  destruct (value_eqb k' k) eqn:E.
  - apply value_eqb_eq in E. subst. tauto.
  - apply IH. tauto.
Qed.

Lemma dict_lookup_in (d : dict) (k v : value) :
  dict_wf d -> In (k, v) d -> dict_lookup d k = Some v.
Proof.
  unfold dict_wf.
  induction d as [|[k' v'] d IH]; simpl; intros W H; [contradiction|].
  inversion W as [|? ? Hn Hd]; subst.
  destruct H as [H|H].
  - injection H as -> ->. now rewrite value_eqb_refl.
  - destruct (value_eqb k' k) eqn:E.
    + apply value_eqb_eq in E. subst.
      exfalso. apply Hn. change k with (fst (k, v)). now apply in_map.
    + now apply IH.
Qed.

(** On a dict, [==] is reflexive. *)
Lemma dict_eqb_refl (d : dict) : dict_wf d -> dict_eqb d d = true.
Proof.
  intro W. unfold dict_eqb. rewrite Nat.eqb_refl. simpl.
  apply forallb_forall. intros [k v] H. simpl.
  rewrite (dict_lookup_in d k v W H). apply value_eqb_refl.
Qed.

Lemma dict_setitem_keys (d : dict) (k v : value) :
  map fst (dict_setitem d k v) =
  if dict_contains d k then map fst d else map fst d ++ [k].
Proof.
  unfold dict_contains.
  induction d as [|[k' v'] d IH]; simpl; [reflexivity|].
  destruct (value_eqb k' k) eqn:E; simpl; [reflexivity|].
  rewrite IH. now destruct (dict_lookup d k).
Qed.

Lemma dict_contains_in (d : dict) (k : value) :
  dict_contains d k = true <-> In k (map fst d).
Proof.
  unfold dict_contains.
  induction d as [|[k' v'] d IH]; simpl.
  - split; [discriminate|contradiction].
  - destruct (value_eqb k' k) eqn:E.
    + apply value_eqb_eq in E. subst. tauto.
    + apply value_eqb_neq in E. rewrite IH. split; [tauto|].
      intros [H|H]; [contradiction|assumption].
Qed.

Lemma dict_setitem_wf (d : dict) (k v : value) :
  dict_wf d -> dict_wf (dict_setitem d k v).
Proof.
  unfold dict_wf. intro W. rewrite dict_setitem_keys.
  destruct (dict_contains d k) eqn:E; [assumption|].
  apply NoDup_app; [assumption|repeat constructor; simpl; tauto|].
  intros x Hx [<-|[]].
  apply dict_contains_in in Hx. congruence.
Qed.

Lemma dict_remove_keys_incl (d : dict) (k x : value) :
  In x (map fst (dict_remove d k)) -> In x (map fst d).
Proof.
  induction d as [|[k' v'] d IH]; simpl; [tauto|].
  destruct (value_eqb k' k); simpl; tauto.
Qed.

Lemma dict_remove_wf (d : dict) (k : value) :
  dict_wf d -> dict_wf (dict_remove d k).
Proof.
  unfold dict_wf.
  induction d as [|[k' v'] d IH]; simpl; intro W; [assumption|].
  inversion W as [|? ? Hn Hd]; subst.
  destruct (value_eqb k' k); [assumption|].
  simpl. constructor; [|now apply IH].
  intro H. apply Hn. eapply dict_remove_keys_incl, H.
Qed.

Lemma removelast_wf (d : dict) : dict_wf d -> dict_wf (removelast d).
Proof.
  unfold dict_wf. intro W.
  destruct (rev d) as [|x l] eqn:E.
  - apply (f_equal (@rev _)) in E. rewrite rev_involutive in E.
    now subst.
  - apply (f_equal (@rev _)) in E. rewrite rev_involutive in E.
    simpl in E. subst d. rewrite removelast_last.
    rewrite map_app in W. now apply NoDup_app_remove_r in W.
Qed.

Lemma dict_update_from_wf (other d : dict) :
  dict_wf d -> dict_wf (dict_update_from other d).
Proof.
  unfold dict_update_from. revert d.
  induction other as [|kv other IH]; simpl; intros d W; [assumption|].
  apply IH. now apply dict_setitem_wf.
Qed.

Lemma dict_update_kwargs_wf (kwargs : kwargs_t) (d : dict) :
  dict_wf d -> dict_wf (dict_update_kwargs kwargs d).
Proof.
  unfold dict_update_kwargs. revert d.
  induction kwargs as [|kv kwargs IH]; simpl; intros d W; [assumption|].
  apply IH. now apply dict_setitem_wf.
Qed.

Lemma in_strings_In (x : string) (l : list string) :
  in_strings x l = true <-> In x l.
Proof.
  unfold in_strings. rewrite existsb_exists. split.
  - intros [y [H E]]. apply String.eqb_eq in E. now subst.
  - intro H. exists x. split; [assumption|apply String.eqb_refl].
Qed.

Lemma dict_mutate_some (name : string) (args : args_t) (kwargs : kwargs_t)
  (d : dict) :
  in_strings name ACTIONS_THAT_MUTATE = true <->
  exists r, dict_mutate name args kwargs d = Some r.
Proof.
  unfold dict_mutate, in_strings, ACTIONS_THAT_MUTATE. simpl.
  rewrite !(String.eqb_sym name).
  repeat match goal with
         | |- context [String.eqb ?a name] => destruct (String.eqb a name)
         end; simpl; split; intro H; eauto; try discriminate;
    destruct H as [r H]; discriminate.
Qed.

Lemma dict_mutate_none (name : string) (args : args_t) (kwargs : kwargs_t)
  (d : dict) :
  in_strings name ACTIONS_THAT_MUTATE = false <->
  dict_mutate name args kwargs d = None.
Proof.
  pose proof (dict_mutate_some name args kwargs d) as H.
  destruct (in_strings name ACTIONS_THAT_MUTATE),
    (dict_mutate name args kwargs d) as [r|]; split; intro E;
    try reflexivity; try discriminate.
  - destruct H as [H _]. destruct (H eq_refl). discriminate.
  - destruct H as [_ H]. assert (false = true) by eauto. discriminate.
Qed.

Ltac case_args :=
  repeat match goal with
         | |- context [match ?x with _ => _ end] =>
             match type of x with
             | args_t => destruct x
             | list _ => destruct x
             | kwargs_t => destruct x
             | dict => destruct x
             | value => destruct x
             | option _ => let E := fresh "E" in destruct x eqn:E
             | bool => let E := fresh "E" in destruct x eqn:E
             | prod _ _ => destruct x
             end
         end.

Lemma dict_update_pairs_wf (items : list (list value)) (d : dict) :
  dict_wf d -> dict_wf (snd (dict_update_pairs items d)).
Proof.
  revert d.
  induction items as [|item items IH]; intros d W; [exact W|].
  destruct item as [|k [|v [|w item]]]; try exact W.
  simpl. apply IH. now apply dict_setitem_wf.
Qed.

(** A mutating operation leaves a dict a dict, whether it returns or
    raises. *)
Lemma dict_mutate_sound (name : string) (args : args_t) (kwargs : kwargs_t)
  (d d' : dict) (r : result payload) :
  dict_mutate name args kwargs d = Some (r, d') ->
  dict_wf d ->
  dict_wf d'.
Proof.
  unfold dict_mutate.
  repeat match goal with
         | |- context [String.eqb name ?a] => destruct (String.eqb name a)
         end; intros H W; try discriminate; injection H as H.
  - unfold dict___setitem__ in H. revert H. case_args; intro H;
      injection H as <- <-; auto using dict_setitem_wf.
  - unfold dict___delitem__ in H. revert H. case_args; intro H;
      injection H as <- <-; auto using dict_remove_wf.
  - unfold dict_setdefault, dict_setdefault_with in H. revert H.
    case_args; intro H; injection H as <- <-; auto using dict_setitem_wf.
  - unfold dict_pop in H. revert H. case_args; intro H;
      injection H as <- <-; auto using dict_remove_wf.
  - unfold dict_popitem in H. revert H. case_args; intro H;
      injection H as <- <-; auto using removelast_wf.
  - unfold dict_clear in H. revert H. case_args; intro H;
      injection H as <- <-; auto. constructor.
  - unfold dict_update in H.
    destruct args as [vs|other|items].
    + revert H. case_args; intro H; injection H as <- <-;
        auto using dict_update_kwargs_wf.
    + injection H as <- <-.
      auto using dict_update_kwargs_wf, dict_update_from_wf.
    + pose proof (dict_update_pairs_wf items d W) as Wp.
      destruct (dict_update_pairs items d) as [[u|e] dp]; simpl in Wp;
        injection H as <- <-; auto using dict_update_kwargs_wf.
Qed.

(** Every operation but [update] on a sequence is atomic: when it raises,
    the dict is as it was. *)
Lemma dict_mutate_atomic (name : string) (args : args_t) (kwargs : kwargs_t)
  (d d' : dict) (e : exn) :
  dict_mutate name args kwargs d = Some (Raise e, d') ->
  (forall items, args <> Pairs items) ->
  d' = d.
Proof.
  unfold dict_mutate.
  repeat match goal with
         | |- context [String.eqb name ?a] => destruct (String.eqb name a)
         end; intros H N; try discriminate; injection H as H.
  - unfold dict___setitem__ in H. revert H. case_args; intro H;
      now injection H.
  - unfold dict___delitem__ in H. revert H. case_args; intro H;
      now injection H.
  - unfold dict_setdefault, dict_setdefault_with in H. revert H.
    case_args; intro H; now injection H.
  - unfold dict_pop in H. revert H. case_args; intro H; now injection H.
  - unfold dict_popitem in H. revert H. case_args; intro H;
      now injection H.
  - unfold dict_clear in H. revert H. case_args; intro H; now injection H.
  - unfold dict_update in H.
    destruct args as [vs|other|items].
    + revert H. case_args; intro H; now injection H.
    + discriminate.
    + now destruct (N items).
Qed.

(** ** Queues *)

Lemma put_all_rev {A : Type} (l q : list A) : put_all l q = rev l ++ q.
Proof.
  unfold put_all, put. revert q.
  induction l as [|x l IH]; simpl; intro q; [reflexivity|].
  rewrite IH, <- app_assoc. reflexivity.
Qed.

Lemma filter_rev {A : Type} (f : A -> bool) (l : list A) :
  filter f (rev l) = rev (filter f l).
Proof.
  induction l as [|x l IH]; simpl; [reflexivity|].
  rewrite filter_app, IH. simpl.
  destruct (f x); simpl; [reflexivity|apply app_nil_r].
Qed.

(** Putting back, in the order they were yielded, the drained entries that
    satisfy [keep] rebuilds the queue without the others. *)
Lemma put_all_drained {A : Type} (keep : A -> bool) (q : Queue A) :
  put_all (filter keep (rev q)) (clear q) = filter keep q.
Proof.
  unfold clear.
  rewrite put_all_rev, filter_rev, rev_involutive. apply app_nil_r.
Qed.

Lemma fifo_put {A : Type} (x : A) (q : Queue A) :
  fifo (put x q) = fifo q ++ [x].
Proof. reflexivity. Qed.

(** ** The sweeps in closed form *)

Lemma change_loop_eq (items : list change_entry) (new : baseline)
  (to_put_back : list change_entry) (s : ZProcServer) :
  change_loop items new to_put_back s =
  (Ok (to_put_back ++
       filter (fun e => negb (baseline_neqb (snd e) new)) items),
   s,
   map (fun e => Push (fst e) (PDict (state s)))
     (filter (fun e => baseline_neqb (snd e) new) items)).
Proof.
  revert to_put_back.
  induction items as [|[ipc_path old] rest IH]; intro to_put_back; simpl.
  - unfold ret. now rewrite app_nil_r.
  - destruct (baseline_neqb old new); simpl.
    + unfold bind, gets, push, emit. simpl. now rewrite IH.
    + now rewrite IH, <- app_assoc.
Qed.

Lemma change_sweep_eq (r : registry change_key change_entry)
  (s : ZProcServer) :
  change_sweep r s =
  (Ok (change_kept (state s) r), s, change_notifications (state s) r).
Proof.
  induction r as [|[keys q] r IH]; simpl; [reflexivity|].
  unfold bind, gets. simpl.
  fold (change_new (state s) keys).
  rewrite change_loop_eq, IH. simpl. unfold ret.
  rewrite app_nil_r.
  rewrite put_all_drained.
  reflexivity.
Qed.

Lemma resolve_change_handlers_eq (s : ZProcServer) :
  resolve_change_handlers s =
  (Ok tt,
   set_change_handlers (change_kept (state s) (change_handlers s)) s,
   change_notifications (state s) (change_handlers s)).
Proof.
  unfold resolve_change_handlers, bind, gets, modify. simpl.
  rewrite change_sweep_eq. simpl. now rewrite app_nil_r.
Qed.

Lemma val_change_loop_eq (items : list val_change_entry) (key new : value)
  (to_put_back : list val_change_entry) (s : ZProcServer) :
  val_change_loop items key new to_put_back s =
  (Ok (to_put_back ++
       filter (fun e => negb (negb (value_eqb (snd e) new))) items),
   s,
   map (fun e => Push (fst e) (PVal (dict_get (state s) key)))
     (filter (fun e => negb (value_eqb (snd e) new)) items)).
Proof.
  revert to_put_back.
  induction items as [|[ipc_path old] rest IH]; intro to_put_back; simpl.
  - unfold ret. now rewrite app_nil_r.
  - destruct (value_eqb old new); simpl.
    + now rewrite IH, <- app_assoc.
    + unfold bind, gets, push, emit. simpl. now rewrite IH.
Qed.

Lemma val_change_sweep_eq (r : registry value val_change_entry)
  (s : ZProcServer) :
  val_change_sweep r s =
  (Ok (val_change_kept (state s) r), s,
   val_change_notifications (state s) r).
Proof.
  induction r as [|[key q] r IH]; simpl; [reflexivity|].
  unfold bind, gets. simpl.
  rewrite val_change_loop_eq, IH. simpl. unfold ret.
  rewrite app_nil_r.
  rewrite put_all_drained.
  reflexivity.
Qed.

Lemma resolve_val_change_handlers_eq (s : ZProcServer) :
  resolve_val_change_handlers s =
  (Ok tt,
   set_val_change_handlers
     (val_change_kept (state s) (val_change_handlers s)) s,
   val_change_notifications (state s) (val_change_handlers s)).
Proof.
  unfold resolve_val_change_handlers, bind, gets, modify. simpl.
  rewrite val_change_sweep_eq. simpl. now rewrite app_nil_r.
Qed.

Lemma equals_loop_eq (items : list equals_entry)
  (to_put_back : list equals_entry) (s : ZProcServer) :
  equals_loop (map queued items) to_put_back s =
  (Ok (to_put_back ++
       filter (fun e => negb (equals_fires (state s) e)) items),
   s,
   map (fun e => Push (equals_endpoint e) (PBool true))
     (filter (equals_fires (state s)) items)).
Proof.
  revert to_put_back.
  induction items as [|[[key v] ipc_path] rest IH]; intro to_put_back; simpl.
  - unfold ret. now rewrite app_nil_r.
  - unfold bind at 1. unfold ret at 1. unfold bind at 1. unfold gets at 1.
    change (value_eqb (dict_get (state s) key) v)
      with (equals_fires (state s) (key, v, ipc_path)).
    destruct (equals_fires (state s) (key, v, ipc_path)); simpl.
    + unfold bind, push, emit. simpl. now rewrite IH.
    + rewrite IH, <- app_assoc. reflexivity.
Qed.

(** The loop over a queue whose newest entry has a key that cannot be
    hashed: the older entries are visited, the satisfied ones notified, and
    the [TypeError] leaves the loop with nothing put back. *)
Lemma equals_loop_unhashable (items : list equals_entry) (v : value)
  (ipc_path : endpoint) (to_put_back : list equals_entry)
  (s : ZProcServer) :
  equals_loop (map queued items ++ [(Unhashable, v, ipc_path)])
    to_put_back s =
  (Raise TypeError, s,
   map (fun e => Push (equals_endpoint e) (PBool true))
     (filter (equals_fires (state s)) items)).
Proof.
  revert to_put_back.
  induction items as [|[[key w] p] rest IH]; intro to_put_back; simpl.
  - reflexivity.
  - unfold bind at 1. unfold ret at 1. unfold bind at 1. unfold gets at 1.
    change (value_eqb (dict_get (state s) key) w)
      with (equals_fires (state s) (key, w, p)).
    destruct (equals_fires (state s) (key, w, p)); simpl.
    + unfold bind, push, emit. simpl. now rewrite IH.
    + now rewrite IH.
Qed.

Lemma equals_sweep_eq (q : Queue equals_entry) (s : ZProcServer) :
  equals_sweep (map queued q) s =
  (Ok tt,
   set_equals_handlers (equals_kept (state s) q) s,
   equals_notifications (state s) q).
Proof.
  unfold equals_sweep, drain, bind, gets, modify. simpl.
  rewrite <- map_rev, equals_loop_eq. simpl. rewrite app_nil_r.
  unfold set_equals_handlers. simpl.
  change (put_all
            (filter (fun e => negb (equals_fires (state s) e)) (rev q)) [])
    with (put_all
            (filter (fun e => negb (equals_fires (state s) e)) (rev q))
            (clear q)).
  now rewrite put_all_drained.
Qed.

Lemma equals_sweep_unhashable (q : Queue equals_entry) (v : value)
  (ipc_path : endpoint) (s : ZProcServer) :
  equals_sweep (put (Unhashable, v, ipc_path) (map queued q)) s =
  (Raise TypeError,
   set_equals_handlers [] s,
   equals_notifications (state s) q).
Proof.
  unfold equals_sweep, drain, put, bind, gets, modify. simpl.
  rewrite <- map_rev, equals_loop_unhashable. simpl.
  reflexivity.
Qed.

Lemma resolve_equals_handler_eq (s : ZProcServer) :
  resolve_equals_handler s =
  (Ok tt,
   set_equals_handlers (equals_kept (state s) (equals_handlers s)) s,
   equals_notifications (state s) (equals_handlers s)).
Proof.
  unfold resolve_equals_handler. unfold bind at 1. unfold gets at 1.
  rewrite equals_sweep_eq. reflexivity.
Qed.

Lemma first_raise_none (st : dict) (items : list condition_entry) :
  first_raise st items = None ->
  before_raise st items = items /\
  forall e, In e items -> condition_raises st e = false.
Proof.
  induction items as [|e rest IH]; simpl; intro H.
  - split; [reflexivity|contradiction].
  - unfold condition_raises at 1.
    destruct (condition_call st e) eqn:E; [|discriminate].
    destruct (IH H) as [IH1 IH2]. split; [now rewrite IH1|].
    intros e' [<-|H']; [|now apply IH2].
    unfold condition_raises. now rewrite E.
Qed.

Lemma first_raise_some (st : dict) (items : list condition_entry) (x : exn) :
  first_raise st items = Some x ->
  exists e, In e items /\ condition_call st e = Raise x.
Proof.
  induction items as [|e rest IH]; simpl; intro H; [discriminate|].
  destruct (condition_call st e) eqn:E.
  - destruct (IH H) as [e' [H1 H2]]. eauto.
  - injection H as ->. eauto.
Qed.

Lemma first_raise_safe (st : dict) (items : list condition_entry) :
  (forall e, In e items -> condition_raises st e = false) ->
  first_raise st items = None.
Proof.
  induction items as [|e rest IH]; simpl; intro H; [reflexivity|].
  pose proof (H e (or_introl eq_refl)) as He. unfold condition_raises in He.
  destruct (condition_call st e); [|discriminate]. apply IH. auto.
Qed.

Lemma condition_loop_eq (items : list condition_entry)
  (to_put_back : list condition_entry) (s : ZProcServer) :
  condition_loop items to_put_back s =
  (match first_raise (state s) items with
   | None =>
       Ok (to_put_back ++
           filter (fun e => negb (condition_fires (state s) e)) items)
   | Some x => Raise x
   end,
   s,
   map (fun e => Push (condition_endpoint e) (PDict (state s)))
     (filter (condition_fires (state s)) (before_raise (state s) items))).
Proof.
  revert to_put_back.
  induction items as [|[[[ipc_path test_fn] args] kwargs] rest IH];
    intro to_put_back.
  - simpl. unfold ret. now rewrite app_nil_r.
  - assert (Hf : condition_fires (state s) (ipc_path, test_fn, args, kwargs) =
                 match test_fn (state s) args kwargs with
                 | Ok b => b
                 | Raise _ => false
                 end) by reflexivity.
    cbn [condition_loop first_raise before_raise].
    unfold condition_raises. cbn [condition_call].
    unfold bind at 1. unfold gets at 1. unfold bind at 1.
    destruct (test_fn (state s) args kwargs) as [[|]|x]; cbn [lift].
    + unfold ret at 1. unfold bind, push, emit. rewrite IH.
      cbn [filter]. rewrite Hf. reflexivity.
    + unfold ret at 1. rewrite IH.
      cbn [filter]. rewrite Hf. cbn.
      destruct (first_raise (state s) rest); [reflexivity|].
      now rewrite <- app_assoc.
    + reflexivity.
Qed.

Lemma resolve_condition_handlers_eq (s : ZProcServer) :
  resolve_condition_handlers s =
  match first_raise (state s) (fifo (condition_handlers s)) with
  | None =>
      (Ok tt,
       set_condition_handlers
         (condition_kept (state s) (condition_handlers s)) s,
       condition_notifications (state s) (condition_handlers s))
  | Some x =>
      (Raise x, set_condition_handlers [] s,
       map (fun e => Push (condition_endpoint e) (PDict (state s)))
         (filter (condition_fires (state s))
            (before_raise (state s) (fifo (condition_handlers s)))))
  end.
Proof.
  unfold resolve_condition_handlers, bind, gets, modify. simpl.
  rewrite condition_loop_eq. simpl. unfold fifo.
  destruct (first_raise (state s) (rev (condition_handlers s))) eqn:E.
  - reflexivity.
  - simpl. rewrite app_nil_r. unfold set_condition_handlers. simpl.
    rewrite put_all_drained.
    apply first_raise_none in E. destruct E as [E _].
    unfold condition_notifications, condition_kept, fifo. now rewrite E.
Qed.

(** A whole sweep, in closed form. *)
Lemma resolve_all_handlers_eq (s : ZProcServer) :
  resolve_all_handlers s =
  match first_raise (state s) (fifo (condition_handlers s)) with
  | None => (Ok tt, swept s, ResolveAll :: sweep_notifications s)
  | Some x => (Raise x, aborted s, ResolveAll :: aborted_notifications s)
  end.
Proof.
  unfold resolve_all_handlers.
  unfold bind at 1. unfold emit at 1.
  unfold bind at 1. rewrite resolve_change_handlers_eq.
  unfold bind at 1. rewrite resolve_condition_handlers_eq.
  cbn [state set_change_handlers condition_handlers].
  destruct (first_raise (state s) (fifo (condition_handlers s))) eqn:E.
  - reflexivity.
  - unfold bind at 1. rewrite resolve_val_change_handlers_eq.
    rewrite resolve_equals_handler_eq. cbn.
    unfold swept, sweep_notifications. reflexivity.
Qed.

(** ** The handlers in closed form *)

Lemma send_state_eq (i : ident) (m : msg) (s : ZProcServer) :
  send_state i m s = (Ok tt, s, [Reply i (PDict (state s))]).
Proof. reflexivity. Qed.

Lemma get_state_callable_eq (py : dict_api) (i : ident) (m : msg)
  (s : ZProcServer) :
  get_state_callable py i m s =
  match m_item m with
  | None => (Raise KeyError, s, [])
  | Some name =>
      let args := match m_args m with Some a => a | None => Atoms [] end in
      let kwargs := match m_kwargs m with Some k => k | None => [] end in
      match dict_call py name args kwargs (state s) with
      | (Raise e, d) => (Raise e, set_state d s, [])
      | (Ok p, d) =>
          if in_strings name ACTIONS_THAT_MUTATE &&
             negb (dict_eqb (state s) d)
          then
            match resolve_all_handlers (set_state d s) with
            | (r, s', o) => (r, s', Reply i p :: o)
            end
          else (Ok tt, set_state d s, [Reply i p])
      end
  end.
Proof.
  unfold get_state_callable.
  destruct (m_item m) as [name|]; [|reflexivity].
  cbn [index]. unfold bind at 1. unfold ret at 1.
  unfold bind at 1. unfold gets at 1.
  unfold bind at 1. unfold call_state.
  destruct (dict_call py name
              match m_args m with Some a => a | None => Atoms [] end
              match m_kwargs m with Some k => k | None => [] end
              (state s)) as [[p|e] d]; [|reflexivity].
  unfold bind at 1. unfold reply at 1. unfold emit at 1.
  unfold bind at 1. unfold gets at 1. cbn [state set_state].
  destruct (in_strings name ACTIONS_THAT_MUTATE); cbn [andb old_neqb].
  - destruct (negb (dict_eqb (state s) d)).
    + destruct (resolve_all_handlers (set_state d s)) as [[r s'] o].
      reflexivity.
    + reflexivity.
  - reflexivity.
Qed.

Lemma lock_state_eq (i : ident) (m : msg) (locked_state : dict)
  (s : ZProcServer) :
  lock_state i m locked_state s =
  let s1 := set_uuid_next (S (uuid_next s)) s in
  if negb (dict_eqb locked_state (state s)) then
    match resolve_all_handlers (set_state locked_state s1) with
    | (r, s', o) => (r, s', Reply i (PLock (uuid_next s) (state s)) :: o)
    end
  else (Ok tt, s1, [Reply i (PLock (uuid_next s) (state s))]).
Proof.
  unfold lock_state.
  unfold bind at 1. unfold get_random_ipc at 1.
  unfold bind at 1. unfold gets at 1.
  unfold bind at 1. unfold reply at 1. unfold emit at 1.
  cbn [state set_uuid_next].
  destruct (negb (dict_eqb locked_state (state s))); [|reflexivity].
  unfold bind at 1. unfold modify at 1.
  destruct (resolve_all_handlers _) as [[r s'] o]. reflexivity.
Qed.

Lemma get_state_attr_eq (py : dict_api) (i : ident) (m : msg)
  (s : ZProcServer) :
  get_state_attr py i m s =
  match m_item m with
  | None => (Raise KeyError, s, [])
  | Some name =>
      match get_attr py name (state s) with
      | Ok attr => (Ok tt, s, [Reply i attr])
      | Raise e => (Raise e, s, [])
      end
  end.
Proof.
  unfold get_state_attr.
  destruct (m_item m) as [name|]; [|reflexivity].
  cbn [index]. unfold bind at 1. unfold ret at 1.
  unfold bind at 1. unfold gets at 1. unfold bind at 1.
  destruct (get_attr py name (state s)); reflexivity.
Qed.

Lemma hash_keys_map (keys : list value) :
  hash_keys (map Hashable keys) = Ok keys.
Proof.
  induction keys as [|k keys IH]; simpl; [reflexivity|now rewrite IH].
Qed.

Lemma hash_keys_ok (keys : list key_obj) (ks : list value) :
  hash_keys keys = Ok ks -> keys = map Hashable ks.
Proof.
  revert ks.
  induction keys as [|[k|] keys IH]; simpl; intros ks H.
  - now injection H as <-.
  - destruct (hash_keys keys) as [vs|e]; [|discriminate].
    injection H as <-. simpl. now rewrite (IH vs eq_refl).
  - discriminate.
Qed.

Lemma hash_keys_raise (keys : list key_obj) (e : exn) :
  hash_keys keys = Raise e -> e = TypeError.
Proof.
  induction keys as [|[k|] keys IH]; simpl; intro H.
  - discriminate.
  - destruct (hash_keys keys) as [vs|x]; [discriminate|].
    injection H as <-. now apply IH.
  - now injection H as <-.
Qed.

Lemma add_change_handler_eq (i : ident) (m : msg) (s : ZProcServer) :
  add_change_handler i m s =
  let s1 := set_uuid_next (S (uuid_next s)) s in
  match m_keys m with
  | None => (Raise KeyError, s1, [Reply i (PEndpoint (uuid_next s))])
  | Some keys =>
      match hash_keys keys with
      | Ok ks =>
          (Ok tt,
           set_change_handlers
             (change_kept (state s) (change_registered ks s)) s1,
           Reply i (PEndpoint (uuid_next s))
             :: change_notifications (state s) (change_registered ks s))
      | Raise e => (Raise e, s1, [Reply i (PEndpoint (uuid_next s))])
      end
  end.
Proof.
  unfold add_change_handler.
  unfold bind at 1. unfold get_random_ipc at 1.
  unfold bind at 1. unfold reply at 1. unfold emit at 1.
  destruct (m_keys m) as [keys|]; [|reflexivity].
  cbn [index]. unfold bind at 1. unfold ret at 1.
  unfold bind at 1. unfold gets at 1. unfold bind at 1.
  destruct keys as [|k keys].
  - unfold bind at 1. unfold gets at 1. unfold modify at 1.
    rewrite resolve_change_handlers_eq. reflexivity.
  - unfold bind at 1.
    destruct (hash_keys (k :: keys)) as [ks|e] eqn:E; [|reflexivity].
    assert (N : exists v vs, ks = v :: vs).
    { apply hash_keys_ok in E. destruct ks as [|v vs]; [discriminate|].
      now exists v, vs. }
    destruct N as [v [vs ->]].
    cbn [lift]. unfold ret at 1.
    unfold bind at 1. unfold gets at 1. unfold modify at 1.
    rewrite resolve_change_handlers_eq. reflexivity.
Qed.

Lemma add_val_change_handler_eq (i : ident) (m : msg) (s : ZProcServer) :
  add_val_change_handler i m s =
  let s1 := set_uuid_next (S (uuid_next s)) s in
  match m_key m with
  | None => (Raise KeyError, s1, [Reply i (PEndpoint (uuid_next s))])
  | Some Unhashable =>
      (Raise TypeError, s1, [Reply i (PEndpoint (uuid_next s))])
  | Some (Hashable key) =>
      (Ok tt,
       set_val_change_handlers
         (val_change_kept (state s)
            (val_change_registered key (m_value m) s)) s1,
       Reply i (PEndpoint (uuid_next s))
         :: val_change_notifications (state s)
              (val_change_registered key (m_value m) s))
  end.
Proof.
  unfold add_val_change_handler.
  unfold bind at 1. unfold get_random_ipc at 1.
  unfold bind at 1. unfold reply at 1. unfold emit at 1.
  destruct (m_key m) as [[key|]|]; [| |reflexivity].
  - cbn [index]. unfold bind at 1. unfold ret at 1.
    destruct (m_value m) as [v|].
    + unfold bind at 1. unfold ret at 1.
      unfold bind at 1. cbn [hash_key lift]. unfold ret at 1.
      unfold bind at 1. unfold gets at 1.
      unfold bind at 1. unfold modify at 1.
      rewrite resolve_val_change_handlers_eq. reflexivity.
    + unfold bind at 1. unfold state_get.
      unfold bind at 1. cbn [hash_key lift]. unfold ret at 1.
      unfold bind at 1. unfold gets at 1. unfold ret at 1.
      unfold bind at 1. unfold ret at 1.
      unfold bind at 1. unfold gets at 1.
      unfold bind at 1. unfold modify at 1.
      rewrite resolve_val_change_handlers_eq. reflexivity.
  - cbn [index]. unfold bind at 1. unfold ret at 1.
    destruct (m_value m) as [v|]; reflexivity.
Qed.

Lemma add_equals_handler_eq (i : ident) (m : msg) (s : ZProcServer) :
  add_equals_handler i m s =
  let s1 := set_uuid_next (S (uuid_next s)) s in
  match m_key m, m_value m with
  | Some (Hashable key), Some v =>
      let q := put (key, v, uuid_next s) (equals_handlers s) in
      (Ok tt, set_equals_handlers (equals_kept (state s) q) s1,
       Reply i (PEndpoint (uuid_next s)) :: equals_notifications (state s) q)
  | Some Unhashable, Some v =>
      (Raise TypeError, set_equals_handlers [] s1,
       Reply i (PEndpoint (uuid_next s))
         :: equals_notifications (state s) (equals_handlers s))
  | _, _ => (Raise KeyError, s1, [Reply i (PEndpoint (uuid_next s))])
  end.
Proof.
  unfold add_equals_handler.
  unfold bind at 1. unfold get_random_ipc at 1.
  unfold bind at 1. unfold reply at 1. unfold emit at 1.
  destruct (m_key m) as [key|]; [|reflexivity].
  cbn [index]. unfold bind at 1. unfold ret at 1.
  destruct (m_value m) as [v|]; [|destruct key; reflexivity].
  cbn [index]. unfold bind at 1. unfold ret at 1.
  unfold bind at 1. unfold gets at 1.
  destruct key as [key|].
  - change (put (Hashable key, v, uuid_next s)
              (map queued
                 (equals_handlers (set_uuid_next (S (uuid_next s)) s))))
      with (map queued (put (key, v, uuid_next s) (equals_handlers s))).
    rewrite equals_sweep_eq. reflexivity.
  - rewrite equals_sweep_unhashable. reflexivity.
Qed.

Lemma add_condition_handler_eq (i : ident) (m : msg) (s : ZProcServer) :
  add_condition_handler i m s =
  let s1 := set_uuid_next (S (uuid_next s)) s in
  match m_callable m, m_args m, m_kwargs m with
  | Some test_fn, Some args, Some kwargs =>
      match resolve_condition_handlers
              (set_condition_handlers
                 (put (uuid_next s, test_fn, args, kwargs)
                    (condition_handlers s)) s1) with
      | (r, s', o) => (r, s', Reply i (PEndpoint (uuid_next s)) :: o)
      end
  | _, _, _ => (Raise KeyError, s1, [Reply i (PEndpoint (uuid_next s))])
  end.
Proof.
  unfold add_condition_handler.
  unfold bind at 1. unfold get_random_ipc at 1.
  unfold bind at 1. unfold reply at 1. unfold emit at 1.
  destruct (m_callable m) as [test_fn|]; [|reflexivity].
  cbn [index]. unfold bind at 1. unfold ret at 1.
  destruct (m_args m) as [args|]; [|reflexivity].
  cbn [index]. unfold bind at 1. unfold ret at 1.
  destruct (m_kwargs m) as [kwargs|]; [|reflexivity].
  cbn [index]. unfold bind at 1. unfold ret at 1.
  unfold bind at 1. unfold gets at 1.
  unfold bind at 1. unfold modify at 1.
  destruct (resolve_condition_handlers _) as [[r s'] o]. reflexivity.
Qed.

(** ** Conservation of endpoints *)

Lemma pushed_app (o1 o2 : list event) :
  pushed (o1 ++ o2) = pushed o1 ++ pushed o2.
Proof. apply flat_map_app. Qed.

Lemma pushed_map_push {A : Type} (f : A -> endpoint) (g : A -> payload)
  (l : list A) :
  pushed (map (fun e => Push (f e) (g e)) l) = map f l.
Proof. induction l as [|x l IH]; simpl; [reflexivity|now rewrite IH]. Qed.

Lemma filter_partition {A : Type} (p : A -> bool) (l : list A) :
  Permutation l (filter p l ++ filter (fun x => negb (p x)) l).
Proof.
  induction l as [|x l IH]; simpl; [constructor|].
  destruct (p x); simpl.
  - now constructor.
  - now apply Permutation_cons_app.
Qed.

(** One queue: every entry is notified or kept. *)
Lemma queue_partition {A : Type} (f : A -> endpoint) (p : A -> bool)
  (q : Queue A) :
  Permutation (map f q)
    (map f (filter p (fifo q)) ++ map f (filter (fun e => negb (p e)) q)).
Proof.
  unfold fifo. rewrite filter_rev, map_rev, <- Permutation_rev.
  rewrite <- map_app. apply Permutation_map, filter_partition.
Qed.

Lemma merge_partitions {A : Type} (a b p1 k1 p2 k2 : list A) :
  Permutation a (p1 ++ k1) -> Permutation b (p2 ++ k2) ->
  Permutation (a ++ b) ((p1 ++ p2) ++ (k1 ++ k2)).
Proof. intros H1 H2. rewrite H1, H2. aac_reflexivity. Qed.

Lemma merge_aborted {A : Type} (a b c pa ka pb dropped : list A) :
  Permutation a (pa ++ ka) -> Permutation b (pb ++ dropped) ->
  Permutation (a ++ b ++ c) ((pa ++ pb) ++ (ka ++ [] ++ c) ++ dropped).
Proof. intros H1 H2. rewrite H1, H2. aac_reflexivity. Qed.

Lemma change_sweep_conserves (st : dict)
  (r : registry change_key change_entry) :
  Permutation (map fst (registry_entries r))
    (pushed (change_notifications st r) ++
     map fst (registry_entries (change_kept st r))).
Proof.
  induction r as [|[keys q] r IH]; simpl; [constructor|].
  rewrite !map_app, pushed_app.
  rewrite (pushed_map_push fst (fun _ => PDict st)).
  apply merge_partitions; [apply queue_partition|exact IH].
Qed.

Lemma val_change_sweep_conserves (st : dict)
  (r : registry value val_change_entry) :
  Permutation (map fst (registry_entries r))
    (pushed (val_change_notifications st r) ++
     map fst (registry_entries (val_change_kept st r))).
Proof.
  induction r as [|[key q] r IH]; simpl; [constructor|].
  rewrite !map_app, pushed_app.
  rewrite (pushed_map_push fst (fun _ => PVal (dict_get st key))).
  apply merge_partitions; [apply queue_partition|exact IH].
Qed.

Lemma equals_sweep_conserves (st : dict) (q : Queue equals_entry) :
  Permutation (map equals_endpoint q)
    (pushed (equals_notifications st q) ++
     map equals_endpoint (equals_kept st q)).
Proof.
  unfold equals_notifications, equals_kept.
  rewrite (pushed_map_push equals_endpoint (fun _ => PBool true)).
  apply queue_partition.
Qed.

Lemma condition_sweep_conserves (st : dict) (q : Queue condition_entry) :
  Permutation (map condition_endpoint q)
    (pushed (condition_notifications st q) ++
     map condition_endpoint (condition_kept st q)).
Proof.
  unfold condition_notifications, condition_kept.
  rewrite (pushed_map_push condition_endpoint (fun _ => PDict st)).
  apply queue_partition.
Qed.

Lemma before_raise_prefix (st : dict) (items : list condition_entry) :
  exists rest, items = before_raise st items ++ rest.
Proof.
  induction items as [|e items [rest IH]]; simpl.
  - now exists [].
  - destruct (condition_raises st e).
    + now exists (e :: items).
    + exists rest. simpl. now rewrite <- IH.
Qed.

(** A sweep of the condition queue that raises: every entry was notified
    or is dropped. *)
Lemma condition_abort_conserves (st : dict) (q : Queue condition_entry) :
  exists dropped,
    Permutation (map condition_endpoint q)
      (map condition_endpoint
         (filter (condition_fires st) (before_raise st (fifo q))) ++ dropped).
Proof.
  destruct (before_raise_prefix st (fifo q)) as [rest H].
  set (pre := before_raise st (fifo q)) in *.
  exists (map condition_endpoint
            (filter (fun e => negb (condition_fires st e)) pre) ++
          map condition_endpoint rest).
  transitivity (map condition_endpoint (fifo q)).
  { unfold fifo. apply Permutation_map, Permutation_rev. }
  rewrite H, (map_app condition_endpoint pre rest), app_assoc.
  apply Permutation_app_tail. rewrite <- map_app.
  apply Permutation_map, filter_partition.
Qed.

Lemma endpoints_swept (s : ZProcServer) :
  Permutation (endpoints s)
    (pushed (sweep_notifications s) ++ endpoints (swept s)).
Proof.
  unfold endpoints, sweep_notifications, swept. cbn.
  rewrite !pushed_app.
  apply merge_partitions; [apply change_sweep_conserves|].
  apply merge_partitions; [apply condition_sweep_conserves|].
  apply merge_partitions;
    [apply val_change_sweep_conserves|apply equals_sweep_conserves].
Qed.

Lemma endpoints_aborted (s : ZProcServer) :
  exists dropped,
    Permutation (endpoints s)
      (pushed (aborted_notifications s) ++ endpoints (aborted s) ++ dropped).
Proof.
  destruct (condition_abort_conserves (state s) (condition_handlers s))
    as [dropped H].
  exists dropped.
  unfold endpoints, aborted_notifications, aborted. cbn.
  rewrite !pushed_app.
  rewrite (pushed_map_push condition_endpoint (fun _ => PDict (state s))).
  apply merge_aborted; [apply change_sweep_conserves|exact H].
Qed.

Lemma minted_same (n : nat) : minted n n = [].
Proof. unfold minted. now rewrite Nat.sub_diag. Qed.

Lemma minted_next (n : nat) : minted n (S n) = [n].
Proof.
  unfold minted. replace (S n - n) with 1 by lia. reflexivity.
Qed.

Lemma minted_app (a b c : nat) :
  a <= b -> b <= c -> minted a c = minted a b ++ minted b c.
Proof.
  intros H1 H2. unfold minted.
  replace (c - a) with ((b - a) + (c - b)) by lia.
  rewrite seq_app. replace (a + (b - a)) with b by lia. reflexivity.
Qed.

Lemma conserves_refl (s : ZProcServer) : conserves s s [].
Proof.
  split; [lia|]. exists []. rewrite minted_same. simpl.
  now rewrite !app_nil_r.
Qed.

Lemma conserves_trans (s s1 s2 : ZProcServer) (o1 o2 : list event) :
  conserves s s1 o1 -> conserves s1 s2 o2 -> conserves s s2 (o1 ++ o2).
Proof.
  intros [L1 [d1 H1]] [L2 [d2 H2]]. split; [lia|].
  exists (d1 ++ d2).
  rewrite (minted_app _ _ _ L1 L2), pushed_app.
  rewrite app_assoc, H1.
  transitivity (pushed o1 ++ d1 ++
                (endpoints s1 ++ minted (uuid_next s1) (uuid_next s2))).
  - aac_reflexivity.
  - rewrite H2. aac_reflexivity.
Qed.

(** Replies, and the marker of a sweep, push on no endpoint. *)
Lemma conserves_reply_first (s s' : ZProcServer) (o : list event)
  (i : ident) (p : payload) :
  conserves s s' o -> conserves s s' (Reply i p :: o).
Proof. intro H. exact H. Qed.

Lemma conserves_reply_last (s s' : ZProcServer) (o : list event)
  (i : ident) (p : payload) :
  conserves s s' o -> conserves s s' (o ++ [Reply i p]).
Proof.
  unfold conserves. rewrite pushed_app. simpl. now rewrite app_nil_r.
Qed.

(** A whole sweep conserves the endpoints, whether it raises or not. *)
Lemma resolve_all_handlers_conserves (s s' : ZProcServer)
  (r : result unit) (o : list event) :
  resolve_all_handlers s = (r, s', o) -> conserves s s' o.
Proof.
  rewrite resolve_all_handlers_eq.
  destruct (first_raise (state s) (fifo (condition_handlers s)));
    intro H; injection H as <- <- <-.
  - split; [simpl; lia|].
    destruct (endpoints_aborted s) as [dropped H]. exists dropped.
    cbn [aborted uuid_next]. rewrite minted_same, app_nil_r. exact H.
  - split; [simpl; lia|]. exists [].
    cbn [swept uuid_next]. rewrite minted_same, !app_nil_r.
    apply endpoints_swept.
Qed.

Lemma registry_put_entries {K A : Type} (eqb : K -> K -> bool) (k : K)
  (x : A) (r : registry K A) :
  Permutation (registry_entries (registry_put eqb k x r))
    (x :: registry_entries r).
Proof.
  induction r as [|[k' q] r IH]; simpl; [constructor; constructor|].
  destruct (eqb k' k); simpl.
  - reflexivity.
  - rewrite IH. symmetry. apply Permutation_middle.
Qed.

(** The four registries side by side: a step that touches one of them. *)
Section Slots.
Context {A : Type}.
Variables a c v e u p k d : list A.

Lemma slot_change :
  Permutation (a ++ u) (p ++ k ++ d) ->
  Permutation ((a ++ c ++ v ++ e) ++ u) (p ++ (k ++ c ++ v ++ e) ++ d).
Proof.
  intro H. transitivity ((a ++ u) ++ c ++ v ++ e); [aac_reflexivity|].
  rewrite H. aac_reflexivity.
Qed.

Lemma slot_condition :
  Permutation (c ++ u) (p ++ k ++ d) ->
  Permutation ((a ++ c ++ v ++ e) ++ u) (p ++ (a ++ k ++ v ++ e) ++ d).
Proof.
  intro H. transitivity ((c ++ u) ++ a ++ v ++ e); [aac_reflexivity|].
  rewrite H. aac_reflexivity.
Qed.

Lemma slot_val_change :
  Permutation (v ++ u) (p ++ k ++ d) ->
  Permutation ((a ++ c ++ v ++ e) ++ u) (p ++ (a ++ c ++ k ++ e) ++ d).
Proof.
  intro H. transitivity ((v ++ u) ++ a ++ c ++ e); [aac_reflexivity|].
  rewrite H. aac_reflexivity.
Qed.

Lemma slot_equals :
  Permutation (e ++ u) (p ++ k ++ d) ->
  Permutation ((a ++ c ++ v ++ e) ++ u) (p ++ (a ++ c ++ v ++ k) ++ d).
Proof.
  intro H. transitivity ((e ++ u) ++ a ++ c ++ v); [aac_reflexivity|].
  rewrite H. aac_reflexivity.
Qed.
End Slots.

Lemma conserves_dropped_mint (s : ZProcServer) :
  conserves s (set_uuid_next (S (uuid_next s)) s) [].
Proof.
  split; [simpl; lia|]. exists [uuid_next s].
  cbn [set_uuid_next uuid_next]. rewrite minted_next. reflexivity.
Qed.

Lemma add_change_handler_conserves (i : ident) (m : msg)
  (s s' : ZProcServer) (r : result unit) (o : list event) :
  add_change_handler i m s = (r, s', o) -> conserves s s' o.
Proof.
  rewrite add_change_handler_eq. cbv zeta.
  destruct (m_keys m) as [keys|];
    [destruct (hash_keys keys) as [ks|e]|];
    intro H; injection H as <- <- <-;
    try (apply conserves_reply_first, conserves_dropped_mint).
  - apply conserves_reply_first. split; [simpl; lia|]. exists [].
    cbn [set_change_handlers set_uuid_next uuid_next]. rewrite minted_next.
    unfold endpoints.
    cbn [change_handlers condition_handlers val_change_handlers
           equals_handlers].
    apply slot_change. rewrite app_nil_r.
    rewrite <- change_sweep_conserves.
    unfold change_registered.
    destruct ks; rewrite registry_put_entries; simpl;
      symmetry; apply Permutation_cons_append.
Qed.

Lemma add_val_change_handler_conserves (i : ident) (m : msg)
  (s s' : ZProcServer) (r : result unit) (o : list event) :
  add_val_change_handler i m s = (r, s', o) -> conserves s s' o.
Proof.
  rewrite add_val_change_handler_eq. cbv zeta.
  destruct (m_key m) as [[key|]|]; intro H; injection H as <- <- <-;
    try (apply conserves_reply_first, conserves_dropped_mint).
  - apply conserves_reply_first. split; [simpl; lia|]. exists [].
    cbn [set_val_change_handlers set_uuid_next uuid_next].
    rewrite minted_next.
    unfold endpoints.
    cbn [change_handlers condition_handlers val_change_handlers
           equals_handlers].
    apply slot_val_change. rewrite app_nil_r.
    rewrite <- val_change_sweep_conserves.
    unfold val_change_registered.
    rewrite registry_put_entries; simpl.
    symmetry; apply Permutation_cons_append.
Qed.

Lemma add_equals_handler_conserves (i : ident) (m : msg)
  (s s' : ZProcServer) (r : result unit) (o : list event) :
  add_equals_handler i m s = (r, s', o) -> conserves s s' o.
Proof.
  rewrite add_equals_handler_eq. cbv zeta.
  destruct (m_key m) as [[key|]|]; [destruct (m_value m) as [v|]|
                                    destruct (m_value m) as [v|]|];
    intro H; injection H as <- <- <-;
    try (apply conserves_reply_first, conserves_dropped_mint).
  - apply conserves_reply_first. split; [simpl; lia|]. exists [].
    cbn [set_equals_handlers set_uuid_next uuid_next].
    rewrite minted_next.
    unfold endpoints.
    cbn [change_handlers condition_handlers val_change_handlers
           equals_handlers].
    apply slot_equals. rewrite app_nil_r.
    rewrite <- equals_sweep_conserves.
    unfold put. simpl. symmetry; apply Permutation_cons_append.
  - (* the key cannot be hashed: the watchers that were not satisfied, and
       the new one, are dropped *)
    apply conserves_reply_first. split; [simpl; lia|].
    exists (map equals_endpoint
              (equals_kept (state s) (equals_handlers s)) ++ [uuid_next s]).
    cbn [set_equals_handlers set_uuid_next uuid_next].
    rewrite minted_next.
    unfold endpoints.
    cbn [change_handlers condition_handlers val_change_handlers
           equals_handlers map].
    apply slot_equals. cbn [app].
    rewrite (equals_sweep_conserves (state s) (equals_handlers s)) at 1.
    rewrite <- app_assoc. reflexivity.
Qed.

Lemma resolve_condition_handlers_conserves (s s' : ZProcServer)
  (r : result unit) (o : list event) :
  resolve_condition_handlers s = (r, s', o) -> conserves s s' o.
Proof.
  rewrite resolve_condition_handlers_eq.
  destruct (first_raise (state s) (fifo (condition_handlers s)));
    intro H; injection H as <- <- <-; (split; [simpl; lia|]).
  - destruct (condition_abort_conserves (state s) (condition_handlers s))
      as [dropped H].
    exists dropped.
    cbn [set_condition_handlers uuid_next]. rewrite minted_same.
    unfold endpoints.
    cbn [change_handlers condition_handlers val_change_handlers
           equals_handlers map].
    rewrite (pushed_map_push condition_endpoint (fun _ => PDict (state s))).
    apply slot_condition. now rewrite app_nil_r.
  - exists [].
    cbn [set_condition_handlers uuid_next]. rewrite minted_same.
    unfold endpoints.
    cbn [change_handlers condition_handlers val_change_handlers
           equals_handlers].
    apply slot_condition. rewrite !app_nil_r.
    apply condition_sweep_conserves.
Qed.

Lemma add_condition_handler_conserves (i : ident) (m : msg)
  (s s' : ZProcServer) (r : result unit) (o : list event) :
  add_condition_handler i m s = (r, s', o) -> conserves s s' o.
Proof.
  rewrite add_condition_handler_eq. cbv zeta.
  destruct (m_callable m) as [test_fn|];
    [destruct (m_args m) as [args|]; [destruct (m_kwargs m) as [kwargs|]|]|];
    try (intro H; injection H as <- <- <-;
         apply conserves_reply_first, conserves_dropped_mint).
  destruct (resolve_condition_handlers _) as [[r1 s1] o1] eqn:E.
  intro H; injection H as <- <- <-.
  apply conserves_reply_first.
  apply resolve_condition_handlers_conserves in E.
  change o1 with ([] ++ o1).
  eapply conserves_trans; [|exact E].
  split; [simpl; lia|]. exists [].
  cbn [set_condition_handlers set_uuid_next uuid_next].
  rewrite minted_next.
  unfold endpoints.
  cbn [change_handlers condition_handlers val_change_handlers
         equals_handlers pushed flat_map].
  apply (slot_condition _ _ _ _ _ []). rewrite app_nil_r.
  unfold put. simpl. symmetry; apply Permutation_cons_append.
Qed.

Lemma conserves_set_state (d : dict) (s : ZProcServer) :
  conserves s (set_state d s) [].
Proof.
  split; [simpl; lia|]. exists [].
  cbn [set_state uuid_next]. rewrite minted_same. simpl.
  now rewrite !app_nil_r.
Qed.

Lemma get_state_callable_conserves (py : dict_api) (i : ident) (m : msg)
  (s s' : ZProcServer) (r : result unit) (o : list event) :
  get_state_callable py i m s = (r, s', o) -> conserves s s' o.
Proof.
  rewrite get_state_callable_eq. cbv zeta.
  destruct (m_item m) as [name|].
  - destruct (dict_call py name _ _ (state s)) as [[p|e] d].
    + destruct (in_strings name ACTIONS_THAT_MUTATE &&
                negb (dict_eqb (state s) d)).
      * destruct (resolve_all_handlers (set_state d s)) as [[r1 s1] o1] eqn:E.
        intro H; injection H as <- <- <-.
        apply conserves_reply_first.
        apply resolve_all_handlers_conserves in E.
        change o1 with ([] ++ o1).
        eapply conserves_trans; [apply conserves_set_state|exact E].
      * intro H; injection H as <- <- <-.
        apply conserves_reply_first, conserves_set_state.
    + intro H; injection H as <- <- <-. apply conserves_set_state.
  - intro H; injection H as <- <- <-. apply conserves_refl.
Qed.

Lemma lock_state_conserves (i : ident) (m : msg) (locked_state : dict)
  (s s' : ZProcServer) (r : result unit) (o : list event) :
  lock_state i m locked_state s = (r, s', o) -> conserves s s' o.
Proof.
  rewrite lock_state_eq. cbv zeta.
  destruct (negb (dict_eqb locked_state (state s))).
  - destruct (resolve_all_handlers _) as [[r1 s1] o1] eqn:E.
    intro H; injection H as <- <- <-.
    apply conserves_reply_first.
    apply resolve_all_handlers_conserves in E.
    change o1 with (([] ++ []) ++ o1).
    eapply conserves_trans; [|exact E].
    eapply conserves_trans;
      [apply conserves_dropped_mint|apply conserves_set_state].
  - intro H; injection H as <- <- <-.
    apply conserves_reply_first, conserves_dropped_mint.
Qed.

Lemma server_call_conserves (py : dict_api) (action : string) (i : ident)
  (m : msg) (locked_state : dict) (s s' : ZProcServer) (r : result unit)
  (o : list event) :
  server_call py action i m locked_state s = (r, s', o) -> conserves s s' o.
Proof.
  unfold server_call.
  repeat match goal with
         | |- context [String.eqb action ?a] => destruct (String.eqb action a)
         end.
  - rewrite send_state_eq. intro H; injection H as <- <- <-.
    apply conserves_reply_first, conserves_refl.
  - rewrite get_state_attr_eq.
    destruct (m_item m); [destruct (get_attr py _ _)|];
      intro H; injection H as <- <- <-;
      try apply conserves_reply_first; apply conserves_refl.
  - apply get_state_callable_conserves.
  - apply lock_state_conserves.
  - apply add_change_handler_conserves.
  - apply add_val_change_handler_conserves.
  - apply add_equals_handler_conserves.
  - apply add_condition_handler_conserves.
  - intro H; injection H as <- <- <-.
    apply conserves_reply_first, conserves_refl.
  - intro H; injection H as <- <- <-. apply conserves_refl.
  - intro H; injection H as <- <- <-. apply conserves_refl.
  - destruct (in_strings action uncallable_attributes);
      intro H; injection H as <- <- <-; apply conserves_refl.
Qed.

(** One iteration of the main loop conserves the endpoints. *)
Lemma state_server_step_conserves (py : dict_api) (s s' : ZProcServer)
  (r : request) (o : list event) :
  state_server_step py s r = (s', o) -> conserves s s' o.
Proof.
  unfold state_server_step, bind.
  destruct (m_action (r_msg r)) as [action|]; cbn [index].
  - unfold ret at 1.
    destruct (server_call py action _ _ _ s) as [[r1 s1] o1] eqn:E.
    apply server_call_conserves in E.
    destruct r1; intro H; injection H as <- <-.
    + exact E.
    + now apply conserves_reply_last.
  - unfold raise. intro H; injection H as <- <-.
    apply (conserves_reply_last s s []), conserves_refl.
Qed.

Lemma state_server_loop_conserves (py : dict_api) (requests : list request)
  (s s' : ZProcServer) (o : list event) :
  state_server_loop py s requests = (s', o) -> conserves s s' o.
Proof.
  revert s o.
  induction requests as [|r rest IH]; simpl; intros s o H.
  - injection H as <- <-. apply conserves_refl.
  - destruct (state_server_step py s r) as [s1 o1] eqn:E1.
    destruct (state_server_loop py s1 rest) as [s2 o2] eqn:E2.
    injection H as <- <-.
    eapply conserves_trans.
    + eapply state_server_step_conserves, E1.
    + apply IH, E2.
Qed.

Lemma NoDup_app_disjoint {A : Type} (l1 l2 : list A) :
  NoDup (l1 ++ l2) -> forall a, In a l1 -> ~ In a l2.
Proof.
  induction l1 as [|x l1 IH]; simpl; intros N a H; [contradiction|].
  inversion N as [|? ? Hx Hn]; subst.
  destruct H as [<-|H].
  - intro H2. apply Hx, in_or_app. now right.
  - now apply IH.
Qed.

(** What conservation gives on a well-formed server. *)
Lemma conserves_wf (s s' : ZProcServer) (o : list event) :
  server_wf s -> conserves s s' o ->
  server_wf s' /\
  NoDup (pushed o) /\
  (forall e, In e (pushed o) -> ~ In e (endpoints s')) /\
  (forall e, In e (pushed o) ->
             In e (endpoints s) \/ uuid_next s <= e < uuid_next s').
Proof.
  intros [N B] [L [dropped P]].
  assert (N0 : NoDup (endpoints s ++ minted (uuid_next s) (uuid_next s'))).
  { apply NoDup_app; [assumption|apply seq_NoDup|].
    intros e He Hm. apply B in He. apply in_seq in Hm. lia. }
  assert (I0 : forall e,
             In e (pushed o ++ endpoints s' ++ dropped) ->
             In e (endpoints s) \/ uuid_next s <= e < uuid_next s').
  { intros e He. apply (Permutation_in _ (Permutation_sym P)) in He.
    apply in_app_or in He. destruct He as [He|He]; [now left|right].
    apply in_seq in He. lia. }
  pose proof (Permutation_NoDup P N0) as N1.
  pose proof (NoDup_app_remove_r _ _ N1) as Np.
  pose proof (NoDup_app_disjoint _ _ N1) as D1.
  pose proof (NoDup_app_remove_r _ _ (NoDup_app_remove_l _ _ N1)) as Ne.
  repeat split.
  - exact Ne.
  - intros e He.
    destruct (I0 e) as [H|H].
    + apply in_or_app. right. apply in_or_app. now left.
    + apply B in H. lia.
    + lia.
  - exact Np.
  - intros e Hp He. apply (D1 e Hp). apply in_or_app. now left.
  - intros e Hp. apply I0. apply in_or_app. now left.
Qed.

(** ** The dispatcher *)

Lemma state_server_step_action (py : dict_api) (s : ZProcServer)
  (r : request) (action : string) :
  m_action (r_msg r) = Some action ->
  state_server_step py s r =
  match server_call py action (r_ident r) (r_msg r) (r_locked_state r) s with
  | (Ok _, s', o) => (s', o)
  | (Raise e, s', o) => (s', o ++ [Reply (r_ident r) (PException e)])
  end.
Proof.
  intro H. unfold state_server_step, bind. rewrite H. cbn [index].
  unfold ret at 1.
  destruct (server_call py action _ _ _ s) as [[[u|e] s1] o1]; reflexivity.
Qed.

Lemma server_call_get_state_callable (py : dict_api) (i : ident) (m : msg)
  (l : dict) :
  server_call py "get_state_callable" i m l = get_state_callable py i m.
Proof. reflexivity. Qed.

(** ** The state under requests *)

Lemma resolve_all_handlers_state (s s' : ZProcServer) (r : result unit)
  (o : list event) :
  resolve_all_handlers s = (r, s', o) ->
  state s' = state s /\ In ResolveAll o.
Proof.
  rewrite resolve_all_handlers_eq.
  destruct (first_raise (state s) (fifo (condition_handlers s)));
    intro H; injection H as <- <- <-; split; try reflexivity; now left.
Qed.

(** A mutation request leaves the state its operation leaves. *)
Lemma mutation_step_state (py : dict_api) (s : ZProcServer) (r : request) :
  is_mutation r ->
  state (fst (state_server_step py s r)) = reference_apply (state s) r.
Proof.
  intros [Ha [name [Hi Hn]]].
  rewrite (state_server_step_action py s r _ Ha).
  rewrite server_call_get_state_callable.
  unfold reference_apply. rewrite Hi.
  rewrite get_state_callable_eq, Hi. cbv zeta.
  apply in_strings_In in Hn.
  unfold dict_call.
  set (args := match m_args (r_msg r) with Some a => a | None => Atoms [] end).
  set (kwargs := match m_kwargs (r_msg r) with Some k => k | None => [] end).
  destruct (proj1 (dict_mutate_some name args kwargs (state s)) Hn)
    as [[res d] E].
  rewrite E, Hn.
  destruct res as [p|e]; [|reflexivity].
  destruct (negb (dict_eqb (state s) d)); cbn [andb]; [|reflexivity].
  destruct (resolve_all_handlers (set_state d s)) as [[r1 s1] o1] eqn:E1.
  apply resolve_all_handlers_state in E1. destruct E1 as [E1 _].
  destruct r1; simpl; exact E1.
Qed.

Lemma mutations_loop_state (py : dict_api) (requests : list request)
  (s : ZProcServer) :
  Forall is_mutation requests ->
  state (fst (state_server_loop py s requests)) =
  fold_left reference_apply requests (state s).
Proof.
  revert s.
  induction requests as [|r rest IH]; intros s H; [reflexivity|].
  inversion H as [|? ? Hr Hrest]; subst.
  simpl.
  pose proof (mutation_step_state py s r Hr) as E.
  destruct (state_server_step py s r) as [s1 o1]. simpl in E.
  specialize (IH s1 Hrest).
  destruct (state_server_loop py s1 rest) as [s2 o2]. simpl in *.
  now rewrite IH, E.
Qed.

(** C1.  After any sequence of mutating operations submitted through
    [get_state_callable], from any server, [send_state] replies with the
    dict obtained by applying the same operations, in the same order, to a
    local reference dict that starts as the state did. *)
Theorem send_state_after_mutations (py : dict_api) (s : ZProcServer)
  (mutations : list request) (who : ident) (m : msg) (locked : dict) :
  Forall is_mutation mutations ->
  m_action m = Some "send_state" ->
  snd (state_server_step py (fst (state_server_loop py s mutations))
         (mk_request who m locked)) =
  [Reply who (PDict (fold_left reference_apply mutations (state s)))].
Proof.
  intros H Ha.
  rewrite <- (mutations_loop_state py mutations s H).
  unfold state_server_step, bind. cbn [r_msg r_ident r_locked_state].
  rewrite Ha. reflexivity.
Qed.



(** ** Watchers under a mutation *)

Lemma list_eqb_refl (l : list value) : list_eqb l l = true.
Proof.
  induction l as [|a l IH]; simpl; [reflexivity|].
  now rewrite value_eqb_refl.
Qed.


Lemma dict_get_absent (d : dict) (k : value) :
  dict_contains d k = false -> dict_get d k = VNone.
Proof.
  unfold dict_contains, dict_get.
  now destruct (dict_lookup d k).
Qed.

Lemma dict_get_remove_same (d : dict) (k : value) :
  dict_wf d -> dict_get (dict_remove d k) k = VNone.
Proof.
  intro W. apply dict_get_absent.
  destruct (dict_contains (dict_remove d k) k) eqn:E; [|reflexivity].
  exfalso. apply dict_contains_in in E. revert W E. unfold dict_wf.
  induction d as [|[k' v'] d IH]; simpl; intros W E; [contradiction|].
  inversion W as [|? ? Hn Hd]; subst.
  destruct (value_eqb k' k) eqn:E1.
  - apply value_eqb_eq in E1. subst. contradiction.
  - simpl in E. destruct E as [E|E].
    + subst. now rewrite value_eqb_refl in E1.
    + now apply IH.
Qed.

Lemma pending_registry_put {K A : Type} (eqb : K -> K -> bool) (k : K)
  (x : A) (r : registry K A) :
  eqb k k = true ->
  (forall a b, eqb a b = true -> a = b) ->
  pending (registry_put eqb k x r) k x.
Proof.
  intros R E. unfold pending.
  induction r as [|[k' q] r IH]; simpl.
  - exists (put x []). split; now left.
  - destruct (eqb k' k) eqn:Ek.
    + apply E in Ek. subst. exists (put x q). split; now left.
    + destruct IH as [q' [H1 H2]]. exists q'. split; [now right|assumption].
Qed.

Lemma pending_endpoint {K A : Type} (f : A -> endpoint) (r : registry K A)
  (k : K) (e : A) :
  pending r k e -> In (f e) (map f (registry_entries r)).
Proof.
  intros [q [H1 H2]]. apply in_map. unfold registry_entries.
  apply in_flat_map. exists (k, q). now split.
Qed.

Lemma val_change_kept_pending (st : dict)
  (r : registry value val_change_entry) (key : value)
  (e : val_change_entry) :
  pending r key e -> val_change_fires st key e = false ->
  pending (val_change_kept st r) key e.
Proof.
  intros [q [H1 H2]] F. unfold val_change_kept.
  exists (filter (fun e => negb (val_change_fires st key e)) q). split.
  - apply (in_map (fun kq => (fst kq,
             filter (fun e => negb (val_change_fires st (fst kq) e))
               (snd kq))) _ (key, q) H1).
  - apply filter_In. split; [assumption|now rewrite F].
Qed.

Lemma val_change_fired_notified (st : dict)
  (r : registry value val_change_entry) (key : value)
  (e : val_change_entry) :
  pending r key e -> val_change_fires st key e = true ->
  In (Push (fst e) (PVal (dict_get st key))) (val_change_notifications st r).
Proof.
  intros [q [H1 H2]] F. unfold val_change_notifications.
  apply in_flat_map. exists (key, q). split; [assumption|].
  cbn [fst snd].
  apply (in_map (fun e => Push (fst e) (PVal (dict_get st key)))).
  apply filter_In. split; [|assumption].
  unfold fifo. now apply -> in_rev.
Qed.

Lemma change_kept_pending (st : dict)
  (r : registry change_key change_entry) (keys : change_key)
  (e : change_entry) :
  pending r keys e -> change_fires st keys e = false ->
  pending (change_kept st r) keys e.
Proof.
  intros [q [H1 H2]] F. unfold change_kept.
  exists (filter (fun e => negb (change_fires st keys e)) q). split.
  - apply (in_map (fun kq => (fst kq,
             filter (fun e => negb (change_fires st (fst kq) e))
               (snd kq))) _ (keys, q) H1).
  - apply filter_In. split; [assumption|now rewrite F].
Qed.

Lemma in_pushed (ipc_path : endpoint) (p : payload) (o : list event) :
  In (Push ipc_path p) o -> In ipc_path (pushed o).
Proof.
  intro H. unfold pushed. apply in_flat_map.
  exists (Push ipc_path p). split; [assumption|now left].
Qed.

(** The reply and the sweep of a mutation request.  A call that raises is
    answered with the error object alone, and the dict it leaves is the
    state; a call that returns is answered with its result, and the sweep
    follows when the state has changed. *)
Lemma mutation_step_eq (py : dict_api) (s : ZProcServer) (r : request) :
  is_mutation r ->
  let d := reference_apply (state s) r in
  let s1 := set_state d s in
  match reference_result (state s) r with
  | Some (Ok p) =>
      state_server_step py s r =
      if dict_eqb (state s) d then (s1, [Reply (r_ident r) p])
      else
        match first_raise d (fifo (condition_handlers s)) with
        | None =>
            (swept s1,
             Reply (r_ident r) p :: ResolveAll :: sweep_notifications s1)
        | Some x =>
            (aborted s1,
             (Reply (r_ident r) p :: ResolveAll :: aborted_notifications s1)
               ++ [Reply (r_ident r) (PException x)])
        end
  | Some (Raise e) =>
      state_server_step py s r = (s1, [Reply (r_ident r) (PException e)])
  | None => False
  end.
Proof.
  intros [Ha [name [Hi Hn]]]. cbv zeta.
  rewrite (state_server_step_action py s r _ Ha).
  rewrite server_call_get_state_callable.
  unfold reference_apply, reference_result. rewrite Hi.
  rewrite get_state_callable_eq, Hi. cbv zeta.
  apply in_strings_In in Hn.
  unfold dict_call.
  set (args := match m_args (r_msg r) with Some a => a | None => Atoms [] end).
  set (kwargs := match m_kwargs (r_msg r) with Some k => k | None => [] end).
  destruct (proj1 (dict_mutate_some name args kwargs (state s)) Hn)
    as [[res d] E].
  rewrite E, Hn.
  destruct res as [p|e]; [|reflexivity].
  cbn [andb].
  destruct (dict_eqb (state s) d); cbn [negb]; [reflexivity|].
  rewrite resolve_all_handlers_eq. cbn [state set_state condition_handlers].
  destruct (first_raise d (fifo (condition_handlers s))); reflexivity.
Qed.

(** An endpoint that was minted and is no longer pending is never pushed
    on again. *)
Lemma never_again (py : dict_api) (s : ZProcServer) (ipc_path : endpoint)
  (requests : list request) :
  server_wf s -> ipc_path < uuid_next s -> ~ In ipc_path (endpoints s) ->
  ~ In ipc_path (pushed (snd (state_server_loop py s requests))).
Proof.
  intros W L N H.
  destruct (state_server_loop py s requests) as [s' o] eqn:E.
  apply state_server_loop_conserves in E.
  destruct (conserves_wf s s' o W E) as [_ [_ [_ I]]].
  destruct (I ipc_path H) as [H1|H1]; [contradiction|lia].
Qed.

Lemma once_in_nodup (x : endpoint) (l : list endpoint) :
  NoDup l -> In x l -> count_occ Nat.eq_dec l x = 1.
Proof. intros N H. now apply NoDup_count_occ'. Qed.

Lemma endpoints_val_change (s : ZProcServer) (key : value)
  (e : val_change_entry) :
  pending (val_change_handlers s) key e -> In (fst e) (endpoints s).
Proof.
  intro H. unfold endpoints.
  apply in_or_app. right. apply in_or_app. right. apply in_or_app. left.
  eapply pending_endpoint, H.
Qed.




(** ** Value-change watchers and [None] *)



(** ** [None] stands for an absent key *)



(** ** Runs *)

Lemma send_state_after_mutations_witness :
  snd (state_server_step py_dict
         (fst (state_server_loop py_dict new_server
                 [ req "a" (call_msg "__setitem__" (Atoms [key_x; VInt 1]));
                   req "b" (call_msg "update" (Mapping [(key_y, VInt 2)]));
                   req "a" (call_msg "pop" (Atoms [VStr "missing"]));
                   req "b" (call_msg "__delitem__" (Atoms [key_x])) ]))
         (mk_request "c" (action_msg "send_state") [])) =
  [Reply "c" (PDict [(key_y, VInt 2)])].
Proof.
  apply (send_state_after_mutations py_dict new_server
           [ req "a" (call_msg "__setitem__" (Atoms [key_x; VInt 1]));
             req "b" (call_msg "update" (Mapping [(key_y, VInt 2)]));
             req "a" (call_msg "pop" (Atoms [VStr "missing"]));
             req "b" (call_msg "__delitem__" (Atoms [key_x])) ]
           "c" (action_msg "send_state") []).
  - repeat constructor; simpl;
      [exists "__setitem__"|exists "update"|exists "pop"|exists "__delitem__"];
      simpl; tauto.
  - reflexivity.
Defined.



(** ** Actions outside the table *)

Ltac not_this_action H :=
  match goal with
  | |- context [String.eqb ?a ?b] =>
      let E := fresh "E" in
      destruct (String.eqb a b) eqn:E;
      [apply String.eqb_eq in E; subst; exfalso; apply H; simpl; tauto|]
  end.

(** C7 (amended).  The dispatcher has no action table: it calls the
    attribute of the server object that the request names.  When the
    [action] field is missing, or names neither one of the eight handlers
    nor one of [reply] and [__subclasshook__], the request has one effect:
    an error object is sent to the originator, and the server is left as
    it was. *)
Theorem unknown_action_error (py : dict_api) (s : ZProcServer)
  (r : request) :
  (m_action (r_msg r) = None \/
   exists action,
     m_action (r_msg r) = Some action /\
     ~ In action (action_table ++ returning_attributes)) ->
  exists e,
    state_server_step py s r = (s, [Reply (r_ident r) (PException e)]).
Proof.
  intros [H|[action [Ha H]]].
  - exists KeyError. unfold state_server_step, bind. now rewrite H.
  - rewrite (state_server_step_action py s r _ Ha).
    unfold server_call. repeat not_this_action H.
    destruct (String.eqb action "push");
      [exists (UserError "ZMQError"); reflexivity|].
    destruct (in_strings action uncallable_attributes);
      [exists TypeError|exists AttributeError]; reflexivity.
Qed.

Lemma unknown_action_error_witness :
  (exists e,
      state_server_step py_dict new_server (req "a" no_msg) =
      (new_server, [Reply "a" (PException e)])) /\
  (exists e,
      state_server_step py_dict new_server
        (req "a" (action_msg "unlock_state")) =
      (new_server, [Reply "a" (PException e)])) /\
  (exists e,
      state_server_step py_dict new_server (req "a" (action_msg "push")) =
      (new_server, [Reply "a" (PException e)])).
Proof.
  split; [|split].
  - apply (unknown_action_error py_dict new_server (req "a" no_msg)).
    left. reflexivity.
  - apply (unknown_action_error py_dict new_server
             (req "a" (action_msg "unlock_state"))).
    right. exists "unlock_state". split; [reflexivity|].
    simpl. intuition discriminate.
  - apply (unknown_action_error py_dict new_server
             (req "a" (action_msg "push"))).
    right. exists "push". split; [reflexivity|].
    simpl. intuition discriminate.
Defined.

(** C7, counterexample.  [reply] is not in the action table, and it is a
    method of the server that takes [(ident, msg)]: a request that names it
    is sent back to its originator, and no error object is.
    [__subclasshook__], which every object has, is not in the table either
    and accepts the two arguments: a request that names it gets no answer
    at all. *)
Lemma reply_action_echoes :
  ~ In "reply" action_table /\
  state_server_step py_dict new_server (req "a" (action_msg "reply")) =
  (new_server, [Reply "a" (PMsg (action_msg "reply"))]) /\
  (~ exists e,
       state_server_step py_dict new_server (req "a" (action_msg "reply")) =
       (new_server, [Reply "a" (PException e)])) /\
  ~ In "__subclasshook__" action_table /\
  state_server_step py_dict new_server
    (req "a" (action_msg "__subclasshook__")) = (new_server, []).
Proof.
  split; [|split; [|split; [|split]]].
  - simpl. intuition discriminate.
  - reflexivity.
  - intros [e H]. vm_compute in H. discriminate.
  - simpl. intuition discriminate.
  - reflexivity.
Qed.

(** ** What a registration replies *)

Lemma replies_map_push {A : Type} (f : A -> endpoint) (g : A -> payload)
  (l : list A) :
  replies (map (fun e => Push (f e) (g e)) l) = [].
Proof. induction l as [|x l IH]; simpl; [reflexivity|exact IH]. Qed.

Lemma replies_app (o1 o2 : list event) :
  replies (o1 ++ o2) = replies o1 ++ replies o2.
Proof. apply filter_app. Qed.

Lemma replies_change_notifications (st : dict)
  (r : registry change_key change_entry) :
  replies (change_notifications st r) = [].
Proof.
  induction r as [|[keys q] r IH]; simpl; [reflexivity|].
  rewrite replies_app, IH, app_nil_r.
  apply (replies_map_push fst (fun _ => PDict st)).
Qed.

Lemma replies_val_change_notifications (st : dict)
  (r : registry value val_change_entry) :
  replies (val_change_notifications st r) = [].
Proof.
  induction r as [|[key q] r IH]; simpl; [reflexivity|].
  rewrite replies_app, IH, app_nil_r.
  apply (replies_map_push fst (fun _ => PVal (dict_get st key))).
Qed.

Lemma change_fired_notified (st : dict)
  (r : registry change_key change_entry) (keys : change_key)
  (e : change_entry) :
  pending r keys e -> change_fires st keys e = true ->
  In (Push (fst e) (PDict st)) (change_notifications st r).
Proof.
  intros [q [H1 H2]] F. unfold change_notifications.
  apply in_flat_map. exists (keys, q). split; [assumption|].
  cbn [fst snd].
  apply (in_map (fun e => Push (fst e) (PDict st))).
  apply filter_In. split; [|assumption].
  unfold fifo. now apply -> in_rev.
Qed.

Lemma endpoints_change (s : ZProcServer) (keys : change_key)
  (e : change_entry) :
  pending (change_handlers s) keys e -> In (fst e) (endpoints s).
Proof.
  intro H. unfold endpoints. apply in_or_app. left.
  eapply pending_endpoint, H.
Qed.

Lemma change_key_eqb_eq (a b : change_key) :
  change_key_eqb a b = true -> a = b.
Proof.
  destruct a as [|k1], b as [|k2]; simpl; try discriminate; [reflexivity|].
  revert k2. induction k1 as [|x k1 IH]; intros [|y k2]; simpl;
    try discriminate; [reflexivity|].
  intro H. apply andb_prop in H. destruct H as [H1 H2].
  apply value_eqb_eq in H1. specialize (IH _ H2).
  injection IH as ->. now subst.
Qed.

Lemma change_key_eqb_refl (a : change_key) : change_key_eqb a a = true.
Proof. destruct a; simpl; [reflexivity|apply list_eqb_refl]. Qed.

Lemma change_registered_pending (keys : list value) (s : ZProcServer) :
  exists ck base,
    pending (change_registered keys s) ck (uuid_next s, base).
Proof.
  unfold change_registered. destruct keys as [|k keys].
  - exists AnyKey, (BState (state s)).
    apply pending_registry_put;
      [apply change_key_eqb_refl|apply change_key_eqb_eq].
  - exists (Keys (k :: keys)),
      (BValues (get_keys_cmp (state s) (k :: keys))).
    apply pending_registry_put;
      [apply change_key_eqb_refl|apply change_key_eqb_eq].
Qed.

(** C5 (amended).  Every registration handler replies with the private
    endpoint before it reads its request.  When the fields it indexes are
    all present and the key, or the tuple of keys, can be hashed (and, for
    a condition watcher, no predicate raises in the sweep that follows),
    that endpoint is the only reply, and the watcher is either pending on
    it or was notified on it by that sweep.  When a field is missing, an
    error object follows the endpoint as a second reply, and nothing is
    queued.  When the fields are present and a key cannot be hashed, an
    error object follows the endpoint as well and the watcher is not
    queued: a change or a value-change registration leaves every registry
    as it was; an equals registration has drained the equals queue by
    then, the pending equals watchers that are satisfied are notified, the
    others are dropped, and the queue is left empty. *)
Theorem registration_replies_endpoint_first (py : dict_api)
  (s : ZProcServer) (r : request) (action : string) :
  m_action (r_msg r) = Some action ->
  In action registration_actions ->
  (action = "add_condition_handler" -> registration_returns s (r_msg r)) ->
  let s' := fst (state_server_step py s r) in
  let o := snd (state_server_step py s r) in
  let s1 := set_uuid_next (S (uuid_next s)) s in
  let first := Reply (r_ident r) (PEndpoint (uuid_next s)) in
  if required_fields action (r_msg r)
  then
    if hashable_keys action (r_msg r)
    then replies o = [first] /\
         (In (uuid_next s) (endpoints s') \/ In (uuid_next s) (pushed o))
    else replies o = [first; Reply (r_ident r) (PException TypeError)] /\
         if String.eqb action "add_equals_handler"
         then s' = set_equals_handlers [] s1 /\
              o = first :: equals_notifications (state s) (equals_handlers s)
                    ++ [Reply (r_ident r) (PException TypeError)]
         else s' = s1 /\
              o = [first; Reply (r_ident r) (PException TypeError)]
  else o = [first; Reply (r_ident r) (PException KeyError)] /\
       s' = s1.
Proof.
  intros Ha Hin Hret. cbv zeta.
  rewrite (state_server_step_action py s r _ Ha).
  destruct Hin as [<-|[<-|[<-|[<-|[]]]]].
  - change (server_call py "add_change_handler" (r_ident r) (r_msg r)
              (r_locked_state r)) with (add_change_handler (r_ident r) (r_msg r)).
    rewrite add_change_handler_eq. cbv zeta.
    unfold required_fields, hashable_keys.
    cbn [String.eqb Ascii.eqb Bool.eqb].
    destruct (m_keys (r_msg r)) as [keys|]; cbn [is_some fst snd];
      [|split; reflexivity].
    destruct (hash_keys keys) as [ks|e] eqn:Eh; cbn [fst snd].
    + split.
      * cbn [replies filter]. fold (replies
          (change_notifications (state s) (change_registered ks s))).
        now rewrite replies_change_notifications.
      * destruct (change_registered_pending ks s) as [ck [base P]].
        destruct (change_fires (state s) ck (uuid_next s, base)) eqn:F.
        -- right. eapply in_pushed. right.
           apply (change_fired_notified _ _ ck (uuid_next s, base) P F).
        -- left.
           apply (endpoints_change _ ck (uuid_next s, base)).
           cbn [change_handlers set_change_handlers].
           now apply change_kept_pending.
    + apply hash_keys_raise in Eh. subst e. repeat split.
  - change (server_call py "add_val_change_handler" (r_ident r) (r_msg r)
              (r_locked_state r))
      with (add_val_change_handler (r_ident r) (r_msg r)).
    rewrite add_val_change_handler_eq. cbv zeta.
    unfold required_fields, hashable_keys.
    cbn [String.eqb Ascii.eqb Bool.eqb orb].
    destruct (m_key (r_msg r)) as [[key|]|]; cbn [is_some fst snd];
      [|repeat split|split; reflexivity].
    split.
    + cbn [replies filter]. fold (replies
        (val_change_notifications (state s)
           (val_change_registered key (m_value (r_msg r)) s))).
      now rewrite replies_val_change_notifications.
    + set (v0 := match m_value (r_msg r) with
                 | Some v => v
                 | None => dict_get (state s) key
                 end).
      assert (P : pending (val_change_registered key (m_value (r_msg r)) s)
                    key (uuid_next s, v0)).
      { apply pending_registry_put; [apply value_eqb_refl|].
        intros a b. apply value_eqb_eq. }
      destruct (val_change_fires (state s) key (uuid_next s, v0)) eqn:F.
      * right. eapply in_pushed. right.
        apply (val_change_fired_notified _ _ key (uuid_next s, v0) P F).
      * left.
        apply (endpoints_val_change _ key (uuid_next s, v0)).
        cbn [val_change_handlers set_val_change_handlers].
        now apply val_change_kept_pending.
  - change (server_call py "add_equals_handler" (r_ident r) (r_msg r)
              (r_locked_state r))
      with (add_equals_handler (r_ident r) (r_msg r)).
    rewrite add_equals_handler_eq. cbv zeta.
    unfold required_fields, hashable_keys.
    cbn [String.eqb Ascii.eqb Bool.eqb orb].
    destruct (m_key (r_msg r)) as [[key|]|]; cbn [is_some andb fst snd];
      [| |split; reflexivity].
    + destruct (m_value (r_msg r)) as [v|]; cbn [is_some fst snd];
        [|split; reflexivity].
      split.
      * cbn [replies filter]. unfold equals_notifications.
        apply f_equal.
        apply (replies_map_push equals_endpoint (fun _ => PBool true)).
      * destruct (equals_fires (state s) (key, v, uuid_next s)) eqn:F.
        -- right. cbn [pushed flat_map app].
           unfold equals_notifications.
           rewrite (pushed_map_push equals_endpoint (fun _ => PBool true)).
           apply (in_map equals_endpoint _ (key, v, uuid_next s)).
           apply filter_In. split; [|exact F].
           unfold fifo, put. simpl. apply in_or_app. right. now left.
        -- left. unfold endpoints.
           cbn [equals_handlers set_equals_handlers set_uuid_next].
           do 3 (apply in_or_app; right).
           apply (in_map equals_endpoint _ (key, v, uuid_next s)).
           apply filter_In. split; [now left|now rewrite F].
    + destruct (m_value (r_msg r)) as [v|]; cbn [is_some fst snd];
        [|split; reflexivity].
      split; [|split; reflexivity].
      cbn [replies filter app].
      match goal with
      | |- context [filter _ (?a ++ [?b])] => fold (replies (a ++ [b]))
      end.
      rewrite replies_app. unfold equals_notifications.
      now rewrite (replies_map_push equals_endpoint (fun _ => PBool true)).
  - change (server_call py "add_condition_handler" (r_ident r) (r_msg r)
              (r_locked_state r))
      with (add_condition_handler (r_ident r) (r_msg r)).
    rewrite add_condition_handler_eq. cbv zeta.
    specialize (Hret eq_refl). unfold registration_returns in Hret.
    unfold required_fields, hashable_keys.
    cbn [String.eqb Ascii.eqb Bool.eqb orb].
    destruct (m_callable (r_msg r)) as [test_fn|]; cbn [is_some andb fst snd];
      [|split; reflexivity].
    destruct (m_args (r_msg r)) as [args|]; cbn [is_some andb fst snd];
      [|split; reflexivity].
    destruct (m_kwargs (r_msg r)) as [kwargs|]; cbn [is_some andb fst snd];
      [|split; reflexivity].
    rewrite resolve_condition_handlers_eq.
    cbn [state condition_handlers set_condition_handlers set_uuid_next].
    match goal with
    | |- context [first_raise ?a ?b] =>
        replace (first_raise a b) with (@None exn) by (symmetry; exact Hret)
    end.
    cbn [fst snd].
    set (e := (uuid_next s, test_fn, args, kwargs)).
    split.
    + cbn [replies filter]. unfold condition_notifications.
      apply f_equal.
      apply (replies_map_push condition_endpoint (fun _ => PDict (state s))).
    + destruct (condition_fires (state s) e) eqn:F.
      * right. cbn [pushed flat_map app].
        unfold condition_notifications.
        rewrite (pushed_map_push condition_endpoint
                   (fun _ => PDict (state s))).
        apply (in_map condition_endpoint _ e).
        apply filter_In. split; [|exact F].
        unfold fifo, put. simpl. apply in_or_app. right. now left.
      * left. unfold endpoints.
        cbn [condition_handlers].
        apply in_or_app; right. apply in_or_app; left.
        apply (in_map condition_endpoint _ e).
        apply filter_In. split; [now left|now rewrite F].
Qed.

Lemma registration_replies_endpoint_first_witness :
  (replies (snd (state_server_step py_dict new_server
                   (req "w" (condition_msg never)))) =
   [Reply "w" (PEndpoint 0)] /\
   (In 0 (endpoints (fst (state_server_step py_dict new_server
                            (req "w" (condition_msg never))))) \/
    In 0 (pushed (snd (state_server_step py_dict new_server
                         (req "w" (condition_msg never))))))) /\
  (snd (state_server_step py_dict new_server
          (req "w" (action_msg "add_change_handler"))) =
   [Reply "w" (PEndpoint 0); Reply "w" (PException KeyError)] /\
   fst (state_server_step py_dict new_server
          (req "w" (action_msg "add_change_handler"))) =
   set_uuid_next 1 new_server) /\
  (replies (snd (state_server_step py_dict equals_x_one
                   (req "u" (unhashable_equals_msg (VInt 2))))) =
   [Reply "u" (PEndpoint 1); Reply "u" (PException TypeError)] /\
   fst (state_server_step py_dict equals_x_one
          (req "u" (unhashable_equals_msg (VInt 2)))) =
   set_equals_handlers [] (set_uuid_next 2 equals_x_one) /\
   snd (state_server_step py_dict equals_x_one
          (req "u" (unhashable_equals_msg (VInt 2)))) =
   [Reply "u" (PEndpoint 1); Reply "u" (PException TypeError)]).
Proof.
  split; [|split].
  - apply (registration_replies_endpoint_first py_dict new_server
             (req "w" (condition_msg never)) "add_condition_handler").
    + reflexivity.
    + simpl. tauto.
    + intros _. reflexivity.
  - apply (registration_replies_endpoint_first py_dict new_server
             (req "w" (action_msg "add_change_handler"))
             "add_change_handler").
    + reflexivity.
    + simpl. tauto.
    + intro H. discriminate H.
  - apply (registration_replies_endpoint_first py_dict equals_x_one
             (req "u" (unhashable_equals_msg (VInt 2)))
             "add_equals_handler").
    + reflexivity.
    + simpl. tauto.
    + intro H. discriminate H.
Defined.

(** C5, counterexample.  A change-watcher registration without the [keys]
    field: the endpoint is replied, then indexing the request raises a
    [KeyError] and an error object is replied as well; no entry is queued.
    The request got an endpoint without a queued entry, and both an
    endpoint reply and an error reply.  Second run: an equals watcher on
    [x == 1] is pending on endpoint 0, and an equals registration arrives
    with all its fields, whose key cannot be hashed.  The endpoint is
    replied, the entry is queued, the sweep drains the queue and raises a
    [TypeError] at the new entry: an error object is replied as well, the
    new watcher is not queued, and the watcher on endpoint 0 is gone
    without having been notified. *)
Lemma registration_endpoint_then_error :
  let run :=
    state_server_step py_dict new_server
      (req "w" (action_msg "add_change_handler")) in
  let run' :=
    state_server_step py_dict equals_x_one
      (req "u" (unhashable_equals_msg (VInt 2))) in
  (snd run = [Reply "w" (PEndpoint 0); Reply "w" (PException KeyError)] /\
   endpoints (fst run) = [] /\
   ~ ((exists e, snd run = [Reply "w" (PEndpoint e)] /\
                 In e (endpoints (fst run))) \/
      (exists x, snd run = [Reply "w" (PException x)] /\
                 endpoints (fst run) = []))) /\
  (endpoints equals_x_one = [0] /\
   snd run' = [Reply "u" (PEndpoint 1); Reply "u" (PException TypeError)] /\
   endpoints (fst run') = []).
Proof.
  vm_compute. split; [|repeat split].
  split; [reflexivity|]. split; [reflexivity|].
  intros [[e [H _]]|[x [H _]]]; discriminate H.
Qed.

(** ** A predicate that raises *)

(** C6 (amended).  When a predicate raises during a sweep, the exception
    leaves the sweep after the condition queue was drained: the watcher
    whose predicate raised is not in the condition queue afterwards, and a
    later sweep, whatever the state has become, returns without raising. *)
Theorem raising_watcher_not_requeued (s s' : ZProcServer) (x : exn)
  (o : list event) :
  resolve_all_handlers s = (Raise x, s', o) ->
  (forall e, In e (condition_handlers s) ->
             condition_raises (state s) e = true ->
             ~ In e (condition_handlers s')) /\
  (forall d, exists o',
      resolve_all_handlers (set_state d s') =
      (Ok tt, swept (set_state d s'), o')).
Proof.
  rewrite resolve_all_handlers_eq.
  destruct (first_raise (state s) (fifo (condition_handlers s))) as [x0|];
    intro H; [|discriminate].
  injection H as _ <- _. split.
  - intros e _ _ [].
  - intro d. rewrite resolve_all_handlers_eq.
    cbn [aborted set_state state condition_handlers fifo rev first_raise].
    eauto.
Qed.

Lemma raising_watcher_not_requeued_witness :
  let s := set_state [(key_x, VInt 0)]
             (fst (state_server_step py_dict new_server
                     (req "w" (condition_msg x_inverse)))) in
  (forall e, In e (condition_handlers s) ->
             condition_raises (state s) e = true ->
             ~ In e (condition_handlers (aborted s))) /\
  (forall d, exists o',
      resolve_all_handlers (set_state d (aborted s)) =
      (Ok tt, swept (set_state d (aborted s)), o')).
Proof.
  apply (raising_watcher_not_requeued
           (set_state [(key_x, VInt 0)]
              (fst (state_server_step py_dict new_server
                      (req "w" (condition_msg x_inverse)))))
           (aborted
              (set_state [(key_x, VInt 0)]
                 (fst (state_server_step py_dict new_server
                         (req "w" (condition_msg x_inverse))))))
           (UserError "ZeroDivisionError")
           [ResolveAll]).
  reflexivity.
Defined.

(** C6, counterexample.  A condition watcher is registered whose predicate
    raises while [x] is [0].  Assigning [0] to [x] makes the sweep raise,
    and the error object is replied.  The next effective mutation leaves
    [x] at [0], where the predicate still raises, yet its sweep raises
    nothing: the watcher is no longer in the condition queue. *)
Lemma raising_watcher_is_gone :
  let run :=
    state_server_loop py_dict new_server
      [ req "w" (condition_msg x_inverse);
        req "c" (call_msg "__setitem__" (Atoms [key_x; VInt 0]));
        req "c" (call_msg "__setitem__" (Atoms [key_y; VInt 1])) ] in
  snd run =
    [ Reply "w" (PEndpoint 0);
      Reply "c" (PVal VNone); ResolveAll;
      Reply "c" (PException (UserError "ZeroDivisionError"));
      Reply "c" (PVal VNone); ResolveAll ] /\
  condition_handlers (fst run) = [] /\
  x_inverse (state (fst run)) (Atoms []) [] =
    Raise (UserError "ZeroDivisionError").
Proof. vm_compute. repeat split. Qed.

(** ** Sweeping twice *)

Lemma filter_kept_twice {A : Type} (p : A -> bool) (l : list A) :
  filter (fun x => negb (p x)) (filter (fun x => negb (p x)) l) =
  filter (fun x => negb (p x)) l.
Proof.
  induction l as [|x l IH]; simpl; [reflexivity|].
  destruct (p x) eqn:E; simpl; [exact IH|].
  rewrite E. simpl. now rewrite IH.
Qed.

Lemma filter_fired_of_kept {A : Type} (p : A -> bool) (l : list A) :
  filter p (fifo (filter (fun x => negb (p x)) l)) = [].
Proof.
  unfold fifo. rewrite filter_rev.
  replace (filter p (filter (fun x => negb (p x)) l)) with (@nil A);
    [reflexivity|].
  induction l as [|x l IH]; simpl; [reflexivity|].
  destruct (p x) eqn:E; simpl; [exact IH|].
  now rewrite E.
Qed.

Lemma change_kept_twice (st : dict) (r : registry change_key change_entry) :
  change_kept st (change_kept st r) = change_kept st r.
Proof.
  induction r as [|[keys q] r IH]; simpl; [reflexivity|].
  rewrite IH. do 2 f_equal.
  apply (filter_kept_twice (change_fires st keys)).
Qed.

Lemma change_kept_silent (st : dict) (r : registry change_key change_entry) :
  change_notifications st (change_kept st r) = [].
Proof.
  induction r as [|[keys q] r IH]; simpl; [reflexivity|].
  rewrite IH, app_nil_r.
  now rewrite (filter_fired_of_kept (change_fires st keys)).
Qed.

Lemma val_change_kept_twice (st : dict)
  (r : registry value val_change_entry) :
  val_change_kept st (val_change_kept st r) = val_change_kept st r.
Proof.
  induction r as [|[key q] r IH]; simpl; [reflexivity|].
  rewrite IH. do 2 f_equal.
  apply (filter_kept_twice (val_change_fires st key)).
Qed.

Lemma val_change_kept_silent (st : dict)
  (r : registry value val_change_entry) :
  val_change_notifications st (val_change_kept st r) = [].
Proof.
  induction r as [|[key q] r IH]; simpl; [reflexivity|].
  rewrite IH, app_nil_r.
  now rewrite (filter_fired_of_kept (val_change_fires st key)).
Qed.

Lemma condition_kept_safe (st : dict) (q : Queue condition_entry) :
  first_raise st (fifo q) = None ->
  first_raise st (fifo (condition_kept st q)) = None.
Proof.
  intro H. apply first_raise_none in H. destruct H as [_ H].
  apply first_raise_safe. intros e He. apply H.
  unfold fifo in *. apply in_rev in He. apply -> in_rev.
  unfold condition_kept in He. apply filter_In in He. tauto.
Qed.

(** C8 (amended).  When a sweep returns, that is when no pending predicate
    raises on the state, a second sweep with no mutation in between returns
    too, pushes no notification, and leaves every registry as the first
    sweep left it. *)
Theorem resolve_all_twice (s s' : ZProcServer) (o : list event) :
  resolve_all_handlers s = (Ok tt, s', o) ->
  resolve_all_handlers s' = (Ok tt, s', [ResolveAll]).
Proof.
  rewrite resolve_all_handlers_eq.
  destruct (first_raise (state s) (fifo (condition_handlers s))) eqn:E;
    intro H; [discriminate|].
  injection H as <- _.
  rewrite resolve_all_handlers_eq.
  cbn [swept state condition_handlers].
  rewrite (condition_kept_safe _ _ E).
  unfold swept, sweep_notifications.
  cbn [state condition_handlers equals_handlers val_change_handlers
         change_handlers uuid_next].
  rewrite change_kept_twice, val_change_kept_twice.
  rewrite change_kept_silent, val_change_kept_silent.
  unfold condition_kept, equals_kept, condition_notifications,
    equals_notifications.
  rewrite (filter_kept_twice (condition_fires (state s))).
  rewrite (filter_kept_twice (equals_fires (state s))).
  rewrite (filter_fired_of_kept (condition_fires (state s))).
  rewrite (filter_fired_of_kept (equals_fires (state s))).
  reflexivity.
Qed.

Lemma resolve_all_twice_witness :
  let s := set_state [(key_x, VInt 1)]
             (fst (state_server_loop py_dict new_server
                     [ req "a" (val_change_msg key_x None);
                       req "b" (condition_msg never) ])) in
  resolve_all_handlers (swept s) = (Ok tt, swept s, [ResolveAll]).
Proof.
  apply (resolve_all_twice
           (set_state [(key_x, VInt 1)]
              (fst (state_server_loop py_dict new_server
                      [ req "a" (val_change_msg key_x None);
                        req "b" (condition_msg never) ])))
           _ [ResolveAll; Push 0 (PVal (VInt 1))]).
  reflexivity.
Defined.

(** C8, counterexample.  A condition watcher whose predicate raises while
    [x] is [0] and a value-change watcher on [x] are pending, and [x] has
    just been assigned [0].  The first sweep raises at the predicate, before
    it reaches the value-change registry; the second sweep, with no
    mutation in between, pushes the value-change notification. *)
Lemma second_sweep_pushes :
  let s := set_state [(key_x, VInt 0)]
             (fst (state_server_loop py_dict new_server
                     [ req "w" (condition_msg x_inverse);
                       req "v" (val_change_msg key_x None) ])) in
  exists s1 s2,
    resolve_all_handlers s =
      (Raise (UserError "ZeroDivisionError"), s1, [ResolveAll]) /\
    resolve_all_handlers s1 =
      (Ok tt, s2, [ResolveAll; Push 1 (PVal (VInt 0))]) /\
    s2 <> s1.
Proof.
  eexists. eexists. split; [vm_compute; reflexivity|].
  split; [vm_compute; reflexivity|].
  intro H. apply (f_equal val_change_handlers) in H. vm_compute in H.
  discriminate H.
Qed.

(** ** The order of a sweep *)

Lemma fifo_filter {A : Type} (p : A -> bool) (q : Queue A) :
  fifo (filter p q) = filter p (fifo q).
Proof. unfold fifo. symmetry. apply filter_rev. Qed.

Lemma registry_fifo_change_kept (st : dict)
  (r : registry change_key change_entry) :
  registry_fifo (change_kept st r) =
  map (fun kq =>
         (fst kq,
          filter (fun e => negb (change_fires st (fst kq) e)) (snd kq)))
    (registry_fifo r).
Proof.
  unfold registry_fifo, change_kept. rewrite !map_map.
  apply map_ext. intros [keys q]. cbn [fst snd]. now rewrite fifo_filter.
Qed.

Lemma registry_fifo_val_change_kept (st : dict)
  (r : registry value val_change_entry) :
  registry_fifo (val_change_kept st r) =
  map (fun kq =>
         (fst kq,
          filter (fun e => negb (val_change_fires st (fst kq) e)) (snd kq)))
    (registry_fifo r).
Proof.
  unfold registry_fifo, val_change_kept. rewrite !map_map.
  apply map_ext. intros [key q]. cbn [fst snd]. now rewrite fifo_filter.
Qed.

(** C9 (amended).  A sweep that returns visits the registries in the order
    change, condition, value-change, equals.  The condition queue and the
    equals queue are evaluated, and their satisfied watchers notified, in
    registration order.  The change and the value-change registry hold one
    queue per key: the queues are visited in the order in which their keys
    were first registered, and each queue in registration order, so two
    watchers of one registry under different keys are not notified in
    registration order in general.  The watchers that do not fire are
    queued again under their key in the order they had. *)
Theorem sweep_order (s s' : ZProcServer) (o : list event) :
  resolve_all_handlers s = (Ok tt, s', o) ->
  o =
    ResolveAll ::
    flat_map (fun kq =>
                map (fun e => Push (fst e) (PDict (state s)))
                  (filter (change_fires (state s) (fst kq)) (snd kq)))
      (registry_fifo (change_handlers s)) ++
    map (fun e => Push (condition_endpoint e) (PDict (state s)))
      (filter (condition_fires (state s)) (fifo (condition_handlers s))) ++
    flat_map (fun kq =>
                map (fun e => Push (fst e) (PVal (dict_get (state s) (fst kq))))
                  (filter (val_change_fires (state s) (fst kq)) (snd kq)))
      (registry_fifo (val_change_handlers s)) ++
    map (fun e => Push (equals_endpoint e) (PBool true))
      (filter (equals_fires (state s)) (fifo (equals_handlers s))) /\
  registry_fifo (change_handlers s') =
    map (fun kq =>
           (fst kq,
            filter (fun e => negb (change_fires (state s) (fst kq) e))
              (snd kq)))
      (registry_fifo (change_handlers s)) /\
  fifo (condition_handlers s') =
    filter (fun e => negb (condition_fires (state s) e))
      (fifo (condition_handlers s)) /\
  registry_fifo (val_change_handlers s') =
    map (fun kq =>
           (fst kq,
            filter (fun e => negb (val_change_fires (state s) (fst kq) e))
              (snd kq)))
      (registry_fifo (val_change_handlers s)) /\
  fifo (equals_handlers s') =
    filter (fun e => negb (equals_fires (state s) e))
      (fifo (equals_handlers s)).
Proof.
  rewrite resolve_all_handlers_eq.
  destruct (first_raise (state s) (fifo (condition_handlers s)));
    intro H; [discriminate|].
  injection H as <- <-.
  cbn [swept change_handlers condition_handlers val_change_handlers
         equals_handlers].
  repeat split.
  - unfold sweep_notifications, change_notifications,
      val_change_notifications, registry_fifo.
    rewrite !flat_map_concat_map, !map_map. reflexivity.
  - apply registry_fifo_change_kept.
  - apply fifo_filter.
  - apply registry_fifo_val_change_kept.
  - apply fifo_filter.
Qed.

Lemma sweep_order_witness :
  let s := set_state [(key_x, VInt 1)]
             (fst (state_server_loop py_dict new_server
                     [ req "a" (val_change_msg key_x None);
                       req "b" (val_change_msg key_y None);
                       req "c" (val_change_msg key_x None) ])) in
  resolve_all_handlers s =
    (Ok tt, swept s, [ResolveAll; Push 0 (PVal (VInt 1));
                      Push 2 (PVal (VInt 1))]) /\
  registry_fifo (val_change_handlers (swept s)) =
    [(key_x, []); (key_y, [(1, VNone)])].
Proof.
  cbv zeta.
  set (s := set_state [(key_x, VInt 1)]
              (fst (state_server_loop py_dict new_server
                      [ req "a" (val_change_msg key_x None);
                        req "b" (val_change_msg key_y None);
                        req "c" (val_change_msg key_x None) ]))).
  assert (H : resolve_all_handlers s =
              (Ok tt, swept s, [ResolveAll; Push 0 (PVal (VInt 1));
                                Push 2 (PVal (VInt 1))])).
  { vm_compute. reflexivity. }
  split; [exact H|].
  destruct (sweep_order s (swept s) _ H) as [_ [_ [_ [Hv _]]]].
  rewrite Hv. vm_compute. reflexivity.
Defined.

(** C9, counterexample.  Three value-change watchers are registered, on
    [x], on [y] and on [x] again, and one [update] changes both keys.  The
    sweep notifies the two watchers of [x] before the watcher of [y]: the
    endpoints are pushed on in the order 0, 2, 1, not in the order of
    registration 0, 1, 2. *)
Lemma per_key_queues_break_fifo :
  let run :=
    state_server_loop py_dict new_server
      [ req "a" (val_change_msg key_x None);
        req "b" (val_change_msg key_y None);
        req "c" (val_change_msg key_x None);
        req "d" (call_msg "update"
                   (Mapping [(key_x, VInt 1); (key_y, VInt 1)])) ] in
  snd run =
    [ Reply "a" (PEndpoint 0); Reply "b" (PEndpoint 1);
      Reply "c" (PEndpoint 2);
      Reply "d" (PVal VNone); ResolveAll;
      Push 0 (PVal (VInt 1)); Push 2 (PVal (VInt 1));
      Push 1 (PVal (VInt 1)) ] /\
  pushed (snd run) <> [0; 1; 2].
Proof. vm_compute. split; [reflexivity|discriminate]. Qed.

(** ** Watchers across requests *)

(** Along any sequence of requests, from a well-formed server, no endpoint
    is pushed on twice, and none that was pushed on is still pending. *)
Theorem notified_at_most_once (py : dict_api) (s : ZProcServer)
  (requests : list request) :
  server_wf s ->
  NoDup (pushed (snd (state_server_loop py s requests))) /\
  (forall e, In e (pushed (snd (state_server_loop py s requests))) ->
             ~ In e (endpoints (fst (state_server_loop py s requests)))) /\
  server_wf (fst (state_server_loop py s requests)).
Proof.
  intro W.
  destruct (state_server_loop py s requests) as [s' o] eqn:E.
  apply state_server_loop_conserves in E.
  destruct (conserves_wf s s' o W E) as [W' [N [D _]]].
  cbn [fst snd]. auto.
Qed.

Lemma new_server_wf : server_wf new_server.
Proof. split; [constructor|]. intros e []. Qed.

(** C4, on the failing input.  A condition watcher whose predicate is
    false is registered, on endpoint 0; then one whose predicate raises.
    The second registration sweeps the condition queue: the first watcher
    is drained, found unsatisfied and set aside in [to_put_back], and the
    exception leaves the loop before anything is put back.  The first
    watcher is now in no queue, nothing was pushed on its endpoint, and
    nothing ever will be. *)
Lemma pending_condition_watcher_lost :
  let run :=
    state_server_loop py_dict new_server
      [ req "a" (condition_msg never);
        req "b" (condition_msg x_positive) ] in
  snd run =
    [ Reply "a" (PEndpoint 0);
      Reply "b" (PEndpoint 1); Reply "b" (PException KeyError) ] /\
  endpoints (fst run) = [] /\
  ~ In 0 (pushed (snd run)) /\
  forall later,
    ~ In 0 (pushed (snd (state_server_loop py_dict (fst run) later))).
Proof.
  cbv zeta.
  split; [reflexivity|]. split; [reflexivity|].
  split; [vm_compute; tauto|].
  intro later. apply never_again.
  - apply (notified_at_most_once py_dict new_server _ new_server_wf).
  - vm_compute. lia.
  - vm_compute. tauto.
Qed.

(** * Further properties *)

(** ** class Queue *)

(** X1.  A queue is first in, first out: after the entries of [l] are put,
    one by one, [drain] yields what the queue held before, oldest first,
    and then the entries of [l] in the order they were put; and it leaves
    the queue empty. *)
Theorem drain_after_puts {A : Type} (l : list A) (q : Queue A) :
  drain (put_all l q) = (fst (drain q) ++ l, []).
Proof.
  unfold drain, clear. cbn [fst].
  now rewrite put_all_rev, rev_app_distr, rev_involutive.
Qed.

(** X2.  Putting back every drained entry, in the order [drain] yielded
    them, restores the queue as it was: a sweep in which nothing fires
    leaves a queue unchanged. *)
Theorem put_back_all_drained {A : Type} (q : Queue A) :
  put_all (fst (drain q)) (snd (drain q)) = q.
Proof.
  unfold drain, clear. cbn [fst snd].
  now rewrite put_all_rev, rev_involutive, app_nil_r.
Qed.

Lemma rev_removelast {A : Type} (l : list A) :
  rev (removelast l) = tl (rev l).
Proof.
  destruct (rev l) as [|x r] eqn:E.
  - apply (f_equal (@rev A)) in E. rewrite rev_involutive in E.
    now subst.
  - apply (f_equal (@rev A)) in E. rewrite rev_involutive in E.
    simpl in E. subst l. rewrite removelast_last. simpl.
    apply rev_involutive.
Qed.

(** X3.  [get] discards the oldest entry, the one [drain] would have
    yielded first, and hands nothing back to its caller; on an empty queue
    it raises an [IndexError] and leaves the queue empty. *)
Theorem get_discards_oldest {A : Type} (q : Queue A) :
  match fst (drain q) with
  | [] => get q = (Raise (UserError "IndexError"), [])
  | _ :: rest => fst (get q) = Ok tt /\ fst (drain (snd (get q))) = rest
  end.
Proof.
  unfold drain. cbn [fst].
  destruct q as [|x q]; [reflexivity|].
  cbn [get fst snd]. rewrite rev_removelast.
  destruct (rev (x :: q)) as [|y r] eqn:E; [|now split].
  apply (f_equal (@List.length A)) in E. rewrite length_rev in E.
  discriminate E.
Qed.

(** ** The reply of a mutating operation *)

Lemma set_state_same (s : ZProcServer) : set_state (state s) s = s.
Proof. now destruct s. Qed.

(** X4.  The first reply to a request that calls a mutating operation is
    what the same call returns on a local dict equal to the state, and the
    state afterwards is the dict that call leaves there.  When the call
    raises, the only reply is the error object carrying that exception, no
    sweep runs, and nothing but the state can have changed: the state is
    the dict the raising call leaves, which is the dict it found unless the
    call is an [update] on a sequence, which keeps the pairs it inserted
    before the element that is not a pair. *)
Theorem mutation_reply_is_local_result (py : dict_api) (s : ZProcServer)
  (r : request) :
  is_mutation r ->
  match reference_result (state s) r with
  | Some (Ok p) =>
      hd_error (snd (state_server_step py s r)) =
        Some (Reply (r_ident r) p) /\
      state (fst (state_server_step py s r)) = reference_apply (state s) r
  | Some (Raise e) =>
      state_server_step py s r =
        (set_state (reference_apply (state s) r) s,
         [Reply (r_ident r) (PException e)]) /\
      ((forall items, m_args (r_msg r) <> Some (Pairs items)) ->
       reference_apply (state s) r = state s /\
       state_server_step py s r = (s, [Reply (r_ident r) (PException e)]))
  | None => False
  end.
Proof.
  intro Hm.
  pose proof (mutation_step_eq py s r Hm) as E. cbv zeta in E.
  pose proof (mutation_step_state py s r Hm) as Es.
  destruct (reference_result (state s) r) as [[p|e]|] eqn:Er;
    [| |contradiction].
  - split; [|exact Es]. rewrite E.
    destruct (dict_eqb (state s) (reference_apply (state s) r));
      [reflexivity|].
    destruct (first_raise _ _); reflexivity.
  - split; [exact E|]. intro Hargs.
    assert (Ed : reference_apply (state s) r = state s).
    { destruct Hm as [_ [name [Hi _]]].
      unfold reference_apply, reference_result in *. rewrite Hi in *.
      destruct (dict_mutate name _ _ (state s)) as [[res d]|] eqn:Em;
        [|discriminate].
      injection Er as ->.
      apply (dict_mutate_atomic _ _ _ _ _ _ Em).
      intros items Hp. apply (Hargs items).
      destruct (m_args (r_msg r)); [now rewrite Hp|discriminate]. }
    split; [exact Ed|]. now rewrite E, Ed, set_state_same.
Qed.

(** A [pop] of a present key returns its value; an [update] on a sequence
    whose second element is not a pair raises, and leaves the first pair
    in the state. *)
Lemma mutation_reply_is_local_result_witness :
  (hd_error (snd (state_server_step py_dict
                    (set_state [(key_x, VInt 7)] new_server)
                    (req "c" (call_msg "pop" (Atoms [key_x]))))) =
   Some (Reply "c" (PVal (VInt 7))) /\
   state (fst (state_server_step py_dict
                 (set_state [(key_x, VInt 7)] new_server)
                 (req "c" (call_msg "pop" (Atoms [key_x]))))) = []) /\
  state_server_step py_dict new_server
    (req "c" (call_msg "update" (Pairs [[key_x; VInt 1]; [key_y]]))) =
  (set_state [(key_x, VInt 1)] new_server,
   [Reply "c" (PException ValueError)]).
Proof.
  split.
  - apply (mutation_reply_is_local_result py_dict
             (set_state [(key_x, VInt 7)] new_server)
             (req "c" (call_msg "pop" (Atoms [key_x])))).
    split; [reflexivity|].
    exists "pop". split; [reflexivity|]. simpl. tauto.
  - apply (mutation_reply_is_local_result py_dict new_server
             (req "c" (call_msg "update"
                         (Pairs [[key_x; VInt 1]; [key_y]])))).
    split; [reflexivity|].
    exists "update". split; [reflexivity|]. simpl. tauto.
Defined.

Lemma dict_setitem_same (d : dict) (k v : value) :
  dict_lookup d k = Some v -> dict_setitem d k v = d.
Proof.
  induction d as [|[k' v'] d IH]; simpl; [discriminate|].
  destruct (value_eqb k' k).
  - intro H. now injection H as ->.
  - intro H. now rewrite IH.
Qed.

(** X5.  Assigning to a key the value it already holds is not a change:
    the request is answered with [None], no sweep runs, nothing is pushed
    and the server is left as it was. *)
Theorem same_assignment_is_silent (py : dict_api) (s : ZProcServer)
  (i : ident) (m : msg) (l : dict) (k v : value) :
  dict_wf (state s) ->
  dict_lookup (state s) k = Some v ->
  m_action m = Some "get_state_callable" ->
  m_item m = Some "__setitem__" ->
  m_args m = Some (Atoms [k; v]) ->
  m_kwargs m = None ->
  state_server_step py s (mk_request i m l) = (s, [Reply i (PVal VNone)]).
Proof.
  intros W Hl Ha Hi Hargs Hkw.
  rewrite (state_server_step_action py s (mk_request i m l) _ Ha).
  cbn [r_msg r_ident r_locked_state].
  rewrite server_call_get_state_callable.
  rewrite get_state_callable_eq, Hi, Hargs, Hkw. cbv zeta.
  unfold dict_call. cbn [dict_mutate String.eqb Ascii.eqb Bool.eqb].
  cbn [dict___setitem__ in_strings existsb ACTIONS_THAT_MUTATE
         String.eqb Ascii.eqb Bool.eqb orb andb].
  rewrite (dict_setitem_same _ _ _ Hl), (dict_eqb_refl _ W).
  cbn [negb]. now rewrite set_state_same.
Qed.

Lemma same_assignment_is_silent_witness :
  state_server_step py_dict (set_state [(key_x, VInt 0)] new_server)
    (mk_request "c" (call_msg "__setitem__" (Atoms [key_x; VInt 0])) []) =
  (set_state [(key_x, VInt 0)] new_server, [Reply "c" (PVal VNone)]).
Proof.
  apply (same_assignment_is_silent py_dict
           (set_state [(key_x, VInt 0)] new_server) "c"
           (call_msg "__setitem__" (Atoms [key_x; VInt 0])) []
           key_x (VInt 0)).
  - repeat constructor. simpl. tauto.
  - reflexivity.
  - reflexivity.
  - reflexivity.
  - reflexivity.
  - reflexivity.
Defined.

(** ** Watchers of the other registries under a mutation *)

(** A watcher notified in a step was notified once, is pending no more,
    and is never notified again. *)
Lemma fired_in_step (py : dict_api) (s s' : ZProcServer) (r : request)
  (o : list event) (ipc_path : endpoint) (p : payload) :
  server_wf s ->
  state_server_step py s r = (s', o) ->
  In ipc_path (endpoints s) ->
  In (Push ipc_path p) o ->
  count_occ Nat.eq_dec (pushed o) ipc_path = 1 /\
  ~ In ipc_path (endpoints s') /\
  forall later,
    ~ In ipc_path (pushed (snd (state_server_loop py s' later))).
Proof.
  intros W Es Hin Hp.
  pose proof (state_server_step_conserves py s s' r o Es) as C.
  destruct (conserves_wf s s' o W C) as [W' [Np [Dp _]]].
  pose proof (in_pushed _ _ _ Hp) as Hp'.
  split; [now apply once_in_nodup|].
  split; [now apply Dp|].
  intro later. apply never_again; [exact W'| |now apply Dp].
  destruct C as [L _]. destruct W as [_ B]. specialize (B _ Hin). lia.
Qed.

(** A watcher still pending after a step was not notified in it. *)
Lemma kept_in_step (py : dict_api) (s s' : ZProcServer) (r : request)
  (o : list event) (ipc_path : endpoint) :
  server_wf s ->
  state_server_step py s r = (s', o) ->
  In ipc_path (endpoints s') ->
  ~ In ipc_path (pushed o).
Proof.
  intros W Es Hin Hp.
  pose proof (state_server_step_conserves py s s' r o Es) as C.
  destruct (conserves_wf s s' o W C) as [_ [_ [Dp _]]].
  now apply (Dp _ Hp).
Qed.

Lemma change_watcher_step (py : dict_api) (s : ZProcServer) (r : request)
  (keys : change_key) (ipc_path : endpoint) (base : baseline) :
  server_wf s ->
  pending (change_handlers s) keys (ipc_path, base) ->
  is_mutation r ->
  let s' := fst (state_server_step py s r) in
  let o := snd (state_server_step py s r) in
  if call_raises (state s) r ||
     dict_eqb (state s) (state s') ||
     negb (baseline_neqb base (change_new (state s') keys))
  then pending (change_handlers s') keys (ipc_path, base) /\
       ~ In ipc_path (pushed o)
  else In (Push ipc_path (PDict (state s'))) o /\
       count_occ Nat.eq_dec (pushed o) ipc_path = 1 /\
       ~ In ipc_path (endpoints s') /\
       forall later,
         ~ In ipc_path (pushed (snd (state_server_loop py s' later))).
Proof.
  intros W P Hm. cbv zeta.
  pose proof (mutation_step_eq py s r Hm) as E. cbv zeta in E.
  unfold call_raises.
  destruct (state_server_step py s r) as [s' o] eqn:Es.
  cbn [fst snd].
  set (d := reference_apply (state s) r) in *.
  pose proof (endpoints_change s keys (ipc_path, base) P) as Hin.
  cbn [fst] in Hin.
  destruct (reference_result (state s) r) as [[p|e]|]; [| |contradiction];
    cbn [orb].
  - destruct (dict_eqb (state s) d) eqn:Ed.
    + injection E as E1 E2. subst s' o.
      cbn [state set_state change_handlers].
      rewrite Ed. cbn [orb]. split; [exact P|]. simpl. tauto.
    + assert (Hs : state s' = d /\
                   change_handlers s' = change_kept d (change_handlers s) /\
                   forall e,
                     In e (change_notifications d (change_handlers s)) ->
                     In e o).
      { destruct (first_raise d (fifo (condition_handlers s))) as [x|];
          injection E as E1 E2; subst s' o;
          (split; [reflexivity|split; [reflexivity|]]); intros e He.
        - right. right. apply in_or_app. left.
          unfold aborted_notifications.
          cbn [state set_state change_handlers].
          apply in_or_app. now left.
        - right. right. unfold sweep_notifications.
          cbn [state set_state change_handlers].
          apply in_or_app. now left. }
      destruct Hs as [Hst [Hch Hno]]. rewrite Hst, Hch, Ed. cbn [orb].
      change (baseline_neqb base (change_new d keys))
        with (change_fires d keys (ipc_path, base)).
      destruct (change_fires d keys (ipc_path, base)) eqn:F; cbn [negb].
      * assert (Hp : In (Push ipc_path (PDict d)) o).
        { apply Hno.
          apply (change_fired_notified _ _ keys (ipc_path, base) P F). }
        split; [exact Hp|].
        apply (fired_in_step py s s' r o ipc_path (PDict d) W Es Hin Hp).
      * assert (P' : pending (change_kept d (change_handlers s)) keys
                       (ipc_path, base)).
        { now apply change_kept_pending. }
        split; [exact P'|].
        apply (kept_in_step py s s' r o ipc_path W Es).
        apply (endpoints_change s' keys (ipc_path, base)).
        now rewrite Hch.
  - injection E as E1 E2. subst s' o.
    cbn [state set_state change_handlers].
    split; [exact P|]. simpl. tauto.
Qed.

(** X6.  A pending change watcher and a request that calls a mutating
    operation; the state afterwards is the dict the call leaves.  When the
    call raises, when it leaves the state as it was, or when it leaves what
    the watcher compares (the values at its keys, or the whole state for a
    watcher of any change) equal to its baseline, the watcher stays pending
    and is not notified.  Otherwise it is notified exactly once, with the
    whole new state, it is pending no more, and nothing is pushed on its
    endpoint again.  This holds also when a condition predicate raises in
    the same sweep: the change registry is swept first. *)
Theorem change_watcher_on_mutation (py : dict_api) (s : ZProcServer)
  (r : request) (keys : change_key) (ipc_path : endpoint)
  (base : baseline) :
  server_wf s ->
  pending (change_handlers s) keys (ipc_path, base) ->
  is_mutation r ->
  let s' := fst (state_server_step py s r) in
  let o := snd (state_server_step py s r) in
  state s' = reference_apply (state s) r /\
  if call_raises (state s) r ||
     dict_eqb (state s) (state s') ||
     negb (baseline_neqb base (change_new (state s') keys))
  then pending (change_handlers s') keys (ipc_path, base) /\
       ~ In ipc_path (pushed o)
  else In (Push ipc_path (PDict (state s'))) o /\
       count_occ Nat.eq_dec (pushed o) ipc_path = 1 /\
       ~ In ipc_path (endpoints s') /\
       forall later,
         ~ In ipc_path (pushed (snd (state_server_loop py s' later))).
Proof.
  intros W P Hm. cbv zeta.
  split; [exact (mutation_step_state py s r Hm)|].
  exact (change_watcher_step py s r keys ipc_path base W P Hm).
Qed.

(** X7.  A change watcher on a tuple of keys whose baseline is the current
    projection is not notified by a mutation that leaves the value read at
    each of its keys as it was, whatever else the mutation changes: it
    stays pending. *)
Theorem change_watcher_ignores_other_keys (py : dict_api) (s : ZProcServer)
  (r : request) (keys : list value) (ipc_path : endpoint) :
  server_wf s ->
  dict_wf (state s) ->
  pending (change_handlers s) (Keys keys)
    (ipc_path, BValues (get_keys_cmp (state s) keys)) ->
  is_mutation r ->
  (forall k, In k keys ->
             dict_get (reference_apply (state s) r) k =
             dict_get (state s) k) ->
  pending (change_handlers (fst (state_server_step py s r))) (Keys keys)
    (ipc_path, BValues (get_keys_cmp (state s) keys)) /\
  ~ In ipc_path (pushed (snd (state_server_step py s r))).
Proof.
  intros W Wd P Hm Hk.
  pose proof (change_watcher_step py s r (Keys keys) ipc_path
                (BValues (get_keys_cmp (state s) keys)) W P Hm) as H.
  cbv zeta in H.
  rewrite (mutation_step_state py s r Hm) in H.
  cbn [change_new baseline_neqb] in H.
  replace (get_keys_cmp (reference_apply (state s) r) keys)
    with (get_keys_cmp (state s) keys) in H.
  - rewrite list_eqb_refl in H. cbn [negb] in H.
    rewrite !orb_true_r in H. exact H.
  - unfold get_keys_cmp. symmetry. apply map_ext_in. exact Hk.
Qed.

(** X8.  A watcher of any change (registered with no keys) whose baseline
    is the current state, and a request that calls a mutating operation;
    the state afterwards is the dict the call leaves.  The watcher stays
    pending, and is not notified, when the call raises or leaves the state
    as it was; otherwise the request pushes the whole new state on the
    watcher's endpoint, and the watcher is pending no more. *)
Theorem any_change_watcher_on_mutation (py : dict_api) (s : ZProcServer)
  (r : request) (ipc_path : endpoint) :
  server_wf s ->
  pending (change_handlers s) AnyKey (ipc_path, BState (state s)) ->
  is_mutation r ->
  let s' := fst (state_server_step py s r) in
  let o := snd (state_server_step py s r) in
  state s' = reference_apply (state s) r /\
  if call_raises (state s) r || dict_eqb (state s) (state s')
  then pending (change_handlers s') AnyKey (ipc_path, BState (state s)) /\
       ~ In ipc_path (pushed o)
  else In (Push ipc_path (PDict (state s'))) o /\
       ~ In ipc_path (endpoints s').
Proof.
  intros W P Hm. cbv zeta.
  split; [exact (mutation_step_state py s r Hm)|].
  pose proof (change_watcher_step py s r AnyKey ipc_path
                (BState (state s)) W P Hm) as H.
  cbv zeta in H. cbn [change_new baseline_neqb] in H.
  rewrite negb_involutive, <- orb_assoc, orb_diag in H.
  destruct (call_raises (state s) r ||
            dict_eqb (state s) (state (fst (state_server_step py s r)))).
  - exact H.
  - destruct H as [H1 [_ [H2 _]]]. now split.
Qed.

Lemma one_pending_wf (s : ZProcServer) :
  endpoints s = [0] -> uuid_next s = 1 -> server_wf s.
Proof.
  intros E U. split; rewrite E.
  - repeat constructor. simpl. tauto.
  - intros e [<-|[]]. lia.
Qed.

Lemma change_watcher_on_mutation_witness :
  let r := req "c" (call_msg "__setitem__" (Atoms [key_x; VInt 1])) in
  state (fst (state_server_step py_dict change_on_x r)) =
    [(key_x, VInt 1)] /\
  In (Push 0 (PDict [(key_x, VInt 1)]))
    (snd (state_server_step py_dict change_on_x r)) /\
  count_occ Nat.eq_dec
    (pushed (snd (state_server_step py_dict change_on_x r))) 0 = 1 /\
  ~ In 0 (endpoints (fst (state_server_step py_dict change_on_x r))) /\
  forall later,
    ~ In 0 (pushed (snd (state_server_loop py_dict
                           (fst (state_server_step py_dict change_on_x r))
                           later))).
Proof.
  apply (change_watcher_on_mutation py_dict change_on_x
           (req "c" (call_msg "__setitem__" (Atoms [key_x; VInt 1])))
           (Keys [key_x]) 0 (BValues [VNone])).
  - apply one_pending_wf; reflexivity.
  - exists [(0, BValues [VNone])]. split; now left.
  - split; [reflexivity|].
    exists "__setitem__". split; [reflexivity|]. simpl. tauto.
Defined.

Lemma change_watcher_ignores_other_keys_witness :
  let r := req "c" (call_msg "__setitem__" (Atoms [key_y; VInt 1])) in
  pending (change_handlers (fst (state_server_step py_dict change_on_x r)))
    (Keys [key_x]) (0, BValues [VNone]) /\
  ~ In 0 (pushed (snd (state_server_step py_dict change_on_x r))).
Proof.
  apply (change_watcher_ignores_other_keys py_dict change_on_x
           (req "c" (call_msg "__setitem__" (Atoms [key_y; VInt 1])))
           [key_x] 0).
  - apply one_pending_wf; reflexivity.
  - constructor.
  - exists [(0, BValues [VNone])]. split; now left.
  - split; [reflexivity|].
    exists "__setitem__". split; [reflexivity|]. simpl. tauto.
  - intros k [<-|[]]. reflexivity.
Defined.

Lemma any_change_watcher_on_mutation_witness :
  let r := req "c" (call_msg "__setitem__" (Atoms [key_y; VInt 1])) in
  state (fst (state_server_step py_dict change_on_any r)) =
    [(key_y, VInt 1)] /\
  In (Push 0 (PDict [(key_y, VInt 1)]))
    (snd (state_server_step py_dict change_on_any r)) /\
  ~ In 0 (endpoints (fst (state_server_step py_dict change_on_any r))).
Proof.
  apply (any_change_watcher_on_mutation py_dict change_on_any
           (req "c" (call_msg "__setitem__" (Atoms [key_y; VInt 1]))) 0).
  - apply one_pending_wf; reflexivity.
  - exists [(0, BState [])]. split; now left.
  - split; [reflexivity|].
    exists "__setitem__". split; [reflexivity|]. simpl. tauto.
Defined.

Lemma endpoints_equals (s : ZProcServer) (e : equals_entry) :
  In e (equals_handlers s) -> In (equals_endpoint e) (endpoints s).
Proof.
  intro H. unfold endpoints. do 3 (apply in_or_app; right).
  now apply in_map.
Qed.

Lemma endpoints_condition (s : ZProcServer) (e : condition_entry) :
  In e (condition_handlers s) -> In (condition_endpoint e) (endpoints s).
Proof.
  intro H. unfold endpoints. apply in_or_app; right. apply in_or_app; left.
  now apply in_map.
Qed.

(** What a mutating request leaves and sends when its call returns, the
    state has changed and the sweep returns. *)
Lemma mutation_swept (py : dict_api) (s s' : ZProcServer) (r : request)
  (o : list event) :
  is_mutation r ->
  state_server_step py s r = (s', o) ->
  first_raise (state s') (fifo (condition_handlers s)) = None ->
  call_raises (state s) r || dict_eqb (state s) (state s') = false ->
  s' = swept (set_state (state s') s) /\
  forall e, In e (sweep_notifications (set_state (state s') s)) -> In e o.
Proof.
  intros Hm Es Hf Ed.
  pose proof (mutation_step_eq py s r Hm) as E. cbv zeta in E.
  rewrite Es in E. unfold call_raises in Ed.
  set (d := reference_apply (state s) r) in *.
  destruct (reference_result (state s) r) as [[p|x]|];
    [|discriminate|contradiction].
  cbn [orb] in Ed.
  destruct (dict_eqb (state s) d) eqn:Ed'.
  - injection E as E1 E2. subst s'. cbn [state set_state] in Ed. congruence.
  - destruct (first_raise d (fifo (condition_handlers s))) as [x|] eqn:Ef;
      injection E as E1 E2; subst s' o; cbn [state set_state aborted swept]
      in *; [congruence|].
    split; [reflexivity|]. intros e He. right. right. exact He.
Qed.

(** What a mutating request leaves when its call raises or leaves the state
    as it was. *)
Lemma mutation_unchanged (py : dict_api) (s s' : ZProcServer) (r : request)
  (o : list event) :
  is_mutation r ->
  state_server_step py s r = (s', o) ->
  call_raises (state s) r || dict_eqb (state s) (state s') = true ->
  s' = set_state (state s') s /\ pushed o = [].
Proof.
  intros Hm Es Ed.
  pose proof (mutation_step_eq py s r Hm) as E. cbv zeta in E.
  rewrite Es in E. unfold call_raises in Ed.
  set (d := reference_apply (state s) r) in *.
  destruct (reference_result (state s) r) as [[p|x]|]; [| |contradiction].
  - cbn [orb] in Ed.
    destruct (dict_eqb (state s) d) eqn:Ed'.
    + injection E as E1 E2. subst s' o. now split.
    + destruct (first_raise d (fifo (condition_handlers s)));
        injection E as E1 E2; subst s'; cbn [state set_state aborted swept]
        in Ed; congruence.
  - injection E as E1 E2. subst s' o. now split.
Qed.

(** X9.  A pending equals watcher [(key, v, ipc_path)] and a request that
    calls a mutating operation, after which no pending condition predicate
    raises; the state afterwards is the dict the call leaves.  When the
    call raises, when it leaves the state as it was, or when it leaves
    [state.get(key)] different from [v], the watcher stays pending and is
    not notified; otherwise [True] is pushed on its endpoint exactly once,
    it is pending no more, and nothing is pushed on its endpoint again. *)
Theorem equals_watcher_on_mutation (py : dict_api) (s : ZProcServer)
  (r : request) (key v : value) (ipc_path : endpoint) :
  server_wf s ->
  In (key, v, ipc_path) (equals_handlers s) ->
  is_mutation r ->
  let s' := fst (state_server_step py s r) in
  let o := snd (state_server_step py s r) in
  first_raise (state s') (fifo (condition_handlers s)) = None ->
  state s' = reference_apply (state s) r /\
  if call_raises (state s) r ||
     dict_eqb (state s) (state s') ||
     negb (value_eqb (dict_get (state s') key) v)
  then In (key, v, ipc_path) (equals_handlers s') /\
       ~ In ipc_path (pushed o)
  else In (Push ipc_path (PBool true)) o /\
       count_occ Nat.eq_dec (pushed o) ipc_path = 1 /\
       ~ In ipc_path (endpoints s') /\
       forall later,
         ~ In ipc_path (pushed (snd (state_server_loop py s' later))).
Proof.
  intros W P Hm. cbv zeta. intro Hf.
  split; [exact (mutation_step_state py s r Hm)|].
  destruct (state_server_step py s r) as [s' o] eqn:Es. cbn [fst snd] in *.
  pose proof (endpoints_equals s _ P) as Hin. cbn [equals_endpoint snd] in Hin.
  destruct (call_raises (state s) r || dict_eqb (state s) (state s')) eqn:Ed;
    cbn [orb].
  - destruct (mutation_unchanged py s s' r o Hm Es Ed) as [E1 E2].
    rewrite E1, E2. cbn [equals_handlers set_state]. split; [exact P|].
    simpl. tauto.
  - destruct (mutation_swept py s s' r o Hm Es Hf Ed) as [E1 Hno].
    change (value_eqb (dict_get (state s') key) v)
      with (equals_fires (state s') (key, v, ipc_path)).
    destruct (equals_fires (state s') (key, v, ipc_path)) eqn:F; cbn [negb].
    + assert (Hp : In (Push ipc_path (PBool true)) o).
      { apply Hno. unfold sweep_notifications.
        do 3 (apply in_or_app; right).
        unfold equals_notifications. cbn [state set_state equals_handlers].
        apply (in_map (fun e => Push (equals_endpoint e) (PBool true)) _
                 (key, v, ipc_path)).
        apply filter_In. split; [|exact F].
        unfold fifo. now apply -> in_rev. }
      split; [exact Hp|].
      apply (fired_in_step py s s' r o ipc_path (PBool true) W Es Hin Hp).
    + assert (P' : In (key, v, ipc_path) (equals_handlers s')).
      { rewrite E1. cbn [swept equals_handlers state set_state].
        apply filter_In. split; [exact P|now rewrite F]. }
      split; [exact P'|].
      apply (kept_in_step py s s' r o ipc_path W Es).
      apply (endpoints_equals s' _ P').
Qed.

Lemma equals_watcher_on_mutation_witness :
  let r := req "c" (call_msg "__setitem__" (Atoms [key_x; VInt 1])) in
  state (fst (state_server_step py_dict equals_x_one r)) =
    [(key_x, VInt 1)] /\
  In (Push 0 (PBool true))
    (snd (state_server_step py_dict equals_x_one r)) /\
  count_occ Nat.eq_dec
    (pushed (snd (state_server_step py_dict equals_x_one r))) 0 = 1 /\
  ~ In 0 (endpoints (fst (state_server_step py_dict equals_x_one r))) /\
  forall later,
    ~ In 0 (pushed (snd (state_server_loop py_dict
                           (fst (state_server_step py_dict equals_x_one r))
                           later))).
Proof.
  apply (equals_watcher_on_mutation py_dict equals_x_one
           (req "c" (call_msg "__setitem__" (Atoms [key_x; VInt 1])))
           key_x (VInt 1) 0).
  - apply one_pending_wf; reflexivity.
  - now left.
  - split; [reflexivity|].
    exists "__setitem__". split; [reflexivity|]. simpl. tauto.
  - reflexivity.
Defined.

(** X10.  A pending condition watcher and a request that calls a mutating
    operation, after which no pending condition predicate raises; the
    state afterwards is the dict the call leaves.  When the call raises,
    when it leaves the state as it was, or when the watcher's predicate is
    false on the new state, the watcher stays pending and is not notified;
    otherwise the whole new state is pushed on its endpoint exactly once,
    it is pending no more, and nothing is pushed on its endpoint again. *)
Theorem condition_watcher_on_mutation (py : dict_api) (s : ZProcServer)
  (r : request) (e : condition_entry) :
  server_wf s ->
  In e (condition_handlers s) ->
  is_mutation r ->
  let s' := fst (state_server_step py s r) in
  let o := snd (state_server_step py s r) in
  first_raise (state s') (fifo (condition_handlers s)) = None ->
  state s' = reference_apply (state s) r /\
  if call_raises (state s) r ||
     dict_eqb (state s) (state s') ||
     negb (condition_fires (state s') e)
  then In e (condition_handlers s') /\
       ~ In (condition_endpoint e) (pushed o)
  else In (Push (condition_endpoint e) (PDict (state s'))) o /\
       count_occ Nat.eq_dec (pushed o) (condition_endpoint e) = 1 /\
       ~ In (condition_endpoint e) (endpoints s') /\
       forall later,
         ~ In (condition_endpoint e)
             (pushed (snd (state_server_loop py s' later))).
Proof.
  intros W P Hm. cbv zeta. intro Hf.
  split; [exact (mutation_step_state py s r Hm)|].
  destruct (state_server_step py s r) as [s' o] eqn:Es. cbn [fst snd] in *.
  pose proof (endpoints_condition s _ P) as Hin.
  destruct (call_raises (state s) r || dict_eqb (state s) (state s')) eqn:Ed;
    cbn [orb].
  - destruct (mutation_unchanged py s s' r o Hm Es Ed) as [E1 E2].
    rewrite E1, E2. cbn [condition_handlers set_state]. split; [exact P|].
    simpl. tauto.
  - destruct (mutation_swept py s s' r o Hm Es Hf Ed) as [E1 Hno].
    destruct (condition_fires (state s') e) eqn:F; cbn [negb].
    + assert (Hp : In (Push (condition_endpoint e) (PDict (state s'))) o).
      { apply Hno. unfold sweep_notifications.
        apply in_or_app; right. apply in_or_app; left.
        unfold condition_notifications.
        cbn [state set_state condition_handlers].
        apply (in_map (fun e => Push (condition_endpoint e)
                                  (PDict (state s'))) _ e).
        apply filter_In. split; [|exact F].
        unfold fifo. now apply -> in_rev. }
      split; [exact Hp|].
      apply (fired_in_step py s s' r o _ (PDict (state s')) W Es Hin Hp).
    + assert (P' : In e (condition_handlers s')).
      { rewrite E1. cbn [swept condition_handlers state set_state].
        apply filter_In. split; [exact P|now rewrite F]. }
      split; [exact P'|].
      apply (kept_in_step py s s' r o _ W Es).
      apply (endpoints_condition s' _ P').
Qed.

Lemma condition_watcher_on_mutation_witness :
  let r := req "c" (call_msg "__setitem__" (Atoms [key_x; VInt 1])) in
  state (fst (state_server_step py_dict condition_x_one r)) =
    [(key_x, VInt 1)] /\
  In (Push 0 (PDict [(key_x, VInt 1)]))
    (snd (state_server_step py_dict condition_x_one r)) /\
  count_occ Nat.eq_dec
    (pushed (snd (state_server_step py_dict condition_x_one r))) 0 = 1 /\
  ~ In 0 (endpoints (fst (state_server_step py_dict condition_x_one r))) /\
  forall later,
    ~ In 0 (pushed (snd (state_server_loop py_dict
                           (fst (state_server_step py_dict condition_x_one
                                   r))
                           later))).
Proof.
  apply (condition_watcher_on_mutation py_dict condition_x_one
           (req "c" (call_msg "__setitem__" (Atoms [key_x; VInt 1])))
           (0, x_is_one, Atoms [], [])).
  - apply one_pending_wf; reflexivity.
  - now left.
  - split; [reflexivity|].
    exists "__setitem__". split; [reflexivity|]. simpl. tauto.
  - reflexivity.
Defined.

(** ** Registration *)

Lemma registration_step (py : dict_api) (s : ZProcServer) (i : ident)
  (m : msg) (l : dict) (action : string) :
  m_action m = Some action ->
  state_server_step py s (mk_request i m l) =
  match server_call py action i m l s with
  | (Ok _, s', o) => (s', o)
  | (Raise e, s', o) => (s', o ++ [Reply i (PException e)])
  end.
Proof.
  intro Ha.
  now rewrite (state_server_step_action py s (mk_request i m l) _ Ha).
Qed.

(** X11.  An equals watcher whose key can be hashed is resolved by its
    own registration when the key already reads as the target: [True] is
    pushed on the new endpoint and the watcher is not queued; otherwise it
    is queued and its registration pushes nothing on its endpoint.  An
    equals watcher whose key cannot be hashed is put in the queue all the
    same, and the sweep that follows drains the queue and raises a
    [TypeError] when it reads the key: the endpoint and then an error
    object are replied, nothing is pushed on the new endpoint, the pending
    equals watchers that are satisfied are notified, and the queue is left
    empty, so that the new watcher and every pending one that was not
    satisfied are dropped. *)
Theorem equals_registration (py : dict_api) (s : ZProcServer) (i : ident)
  (m : msg) (l : dict) (key : key_obj) (v : value) :
  server_wf s ->
  m_action m = Some "add_equals_handler" ->
  m_key m = Some key ->
  m_value m = Some v ->
  let s' := fst (state_server_step py s (mk_request i m l)) in
  let o := snd (state_server_step py s (mk_request i m l)) in
  match key with
  | Hashable k =>
      if value_eqb (dict_get (state s) k) v
      then In (Push (uuid_next s) (PBool true)) o /\
           ~ In (uuid_next s) (endpoints s')
      else In (k, v, uuid_next s) (equals_handlers s') /\
           ~ In (uuid_next s) (pushed o)
  | Unhashable =>
      replies o = [ Reply i (PEndpoint (uuid_next s));
                    Reply i (PException TypeError) ] /\
      pushed o =
        map equals_endpoint
          (filter (equals_fires (state s)) (fifo (equals_handlers s))) /\
      ~ In (uuid_next s) (pushed o) /\
      equals_handlers s' = []
  end.
Proof.
  intros W Ha Hk Hv. cbv zeta.
  destruct (state_server_step py s (mk_request i m l)) as [s' o] eqn:Es.
  pose proof (state_server_step_conserves py s s' _ o Es) as C.
  destruct (conserves_wf s s' o W C) as [_ [_ [Dp _]]].
  rewrite (registration_step py s i m l _ Ha) in Es.
  change (server_call py "add_equals_handler" i m l)
    with (add_equals_handler i m) in Es.
  rewrite add_equals_handler_eq, Hk, Hv in Es. cbv zeta in Es.
  destruct key as [k|].
  - injection Es as E1 E2. cbn [fst snd].
    set (e := (k, v, uuid_next s)) in *.
    change (value_eqb (dict_get (state s) k) v)
      with (equals_fires (state s) e).
    destruct (equals_fires (state s) e) eqn:F.
    + assert (Hp : In (Push (uuid_next s) (PBool true)) o).
      { try subst o. right. unfold equals_notifications.
        apply (in_map (fun e => Push (equals_endpoint e) (PBool true)) _ e).
        apply filter_In. split; [|exact F].
        unfold fifo, put. simpl. apply in_or_app. right. now left. }
      split; [exact Hp|]. apply Dp. eapply in_pushed, Hp.
    + assert (P : In e (equals_handlers s')).
      { try subst s'. cbn [equals_handlers set_equals_handlers].
        unfold equals_kept, put. cbn [filter]. rewrite ?F. now left. }
      split; [exact P|].
      intro H. apply (Dp _ H). apply (endpoints_equals s' e P).
  - injection Es as E1 E2. cbn [fst snd]. subst s' o.
    assert (Hp : pushed
                   (Reply i (PEndpoint (uuid_next s))
                      :: equals_notifications (state s) (equals_handlers s)
                      ++ [Reply i (PException TypeError)]) =
                 map equals_endpoint
                   (filter (equals_fires (state s))
                      (fifo (equals_handlers s)))).
    { change (pushed
                ([Reply i (PEndpoint (uuid_next s))]
                   ++ equals_notifications (state s) (equals_handlers s)
                   ++ [Reply i (PException TypeError)]) =
              map equals_endpoint
                (filter (equals_fires (state s))
                   (fifo (equals_handlers s)))).
      rewrite !pushed_app. unfold equals_notifications.
      rewrite (pushed_map_push equals_endpoint (fun _ => PBool true)).
      simpl. apply app_nil_r. }
    split; [|split; [exact Hp|split; [|reflexivity]]].
    + cbn [replies filter app].
      match goal with
      | |- context [filter _ (?a ++ [?b])] => fold (replies (a ++ [b]))
      end.
      rewrite replies_app. unfold equals_notifications.
      now rewrite (replies_map_push equals_endpoint (fun _ => PBool true)).
    + rewrite Hp. intro H. apply in_map_iff in H.
      destruct H as [e [He Hin]]. apply filter_In in Hin.
      destruct Hin as [Hin _]. unfold fifo in Hin. apply in_rev in Hin.
      destruct W as [_ B].
      specialize (B _ (endpoints_equals s e Hin)). lia.
Qed.

(** Two registrations: one whose key already reads as the target; and one
    whose key cannot be hashed, while an equals watcher is pending. *)
Lemma equals_registration_witness :
  (In (Push 0 (PBool true))
     (snd (state_server_step py_dict (set_state [(key_x, VInt 1)] new_server)
             (mk_request "w" (equals_msg key_x (VInt 1)) []))) /\
   ~ In 0 (endpoints
             (fst (state_server_step py_dict
                     (set_state [(key_x, VInt 1)] new_server)
                     (mk_request "w" (equals_msg key_x (VInt 1)) []))))) /\
  (replies (snd (state_server_step py_dict equals_x_one
                   (mk_request "u" (unhashable_equals_msg (VInt 2)) []))) =
   [Reply "u" (PEndpoint 1); Reply "u" (PException TypeError)] /\
   pushed (snd (state_server_step py_dict equals_x_one
                  (mk_request "u" (unhashable_equals_msg (VInt 2)) []))) =
   [] /\
   ~ In 1 (pushed
             (snd (state_server_step py_dict equals_x_one
                     (mk_request "u" (unhashable_equals_msg (VInt 2))
                        [])))) /\
   equals_handlers
     (fst (state_server_step py_dict equals_x_one
             (mk_request "u" (unhashable_equals_msg (VInt 2)) []))) = []).
Proof.
  split.
  - apply (equals_registration py_dict
             (set_state [(key_x, VInt 1)] new_server)
             "w" (equals_msg key_x (VInt 1)) [] (Hashable key_x) (VInt 1)).
    + split; [constructor|]. simpl. tauto.
    + reflexivity.
    + reflexivity.
    + reflexivity.
  - apply (equals_registration py_dict equals_x_one
             "u" (unhashable_equals_msg (VInt 2)) [] Unhashable (VInt 2)).
    + apply one_pending_wf; reflexivity.
    + reflexivity.
    + reflexivity.
    + reflexivity.
Defined.

Lemma first_raise_app (st : dict) (l : list condition_entry)
  (e : condition_entry) :
  first_raise st l = None ->
  first_raise st (l ++ [e]) =
  match condition_call st e with
  | Ok _ => None
  | Raise x => Some x
  end.
Proof.
  induction l as [|a l IH]; simpl; intro H.
  - now destruct (condition_call st e).
  - destruct (condition_call st a); [now apply IH|discriminate].
Qed.

(** X12.  The registration of a condition watcher, while no predicate
    already pending raises.  A predicate that holds is resolved at once:
    the state is pushed on the new endpoint and the watcher is not queued.
    A predicate that is false is queued and nothing is pushed on its
    endpoint.  A predicate that raises gets two replies, the endpoint and
    then the error object carrying its exception, nothing is pushed on the
    endpoint, and the condition queue is left empty. *)
Theorem condition_registration (py : dict_api) (s : ZProcServer)
  (i : ident) (m : msg) (l : dict) (test_fn : testfn) (args : args_t)
  (kwargs : kwargs_t) :
  server_wf s ->
  m_action m = Some "add_condition_handler" ->
  m_callable m = Some test_fn ->
  m_args m = Some args ->
  m_kwargs m = Some kwargs ->
  first_raise (state s) (fifo (condition_handlers s)) = None ->
  let s' := fst (state_server_step py s (mk_request i m l)) in
  let o := snd (state_server_step py s (mk_request i m l)) in
  match test_fn (state s) args kwargs with
  | Ok true =>
      In (Push (uuid_next s) (PDict (state s))) o /\
      ~ In (uuid_next s) (endpoints s')
  | Ok false =>
      In (uuid_next s, test_fn, args, kwargs) (condition_handlers s') /\
      ~ In (uuid_next s) (pushed o)
  | Raise x =>
      replies o = [ Reply i (PEndpoint (uuid_next s));
                    Reply i (PException x) ] /\
      condition_handlers s' = [] /\
      ~ In (uuid_next s) (pushed o)
  end.
Proof.
  intros W Ha Hc Hargs Hkw Hf. cbv zeta.
  destruct (state_server_step py s (mk_request i m l)) as [s' o] eqn:Es.
  pose proof (state_server_step_conserves py s s' _ o Es) as C.
  destruct (conserves_wf s s' o W C) as [_ [_ [Dp Ip]]].
  rewrite (registration_step py s i m l _ Ha) in Es.
  change (server_call py "add_condition_handler" i m l)
    with (add_condition_handler i m) in Es.
  rewrite add_condition_handler_eq, Hc, Hargs, Hkw in Es. cbv zeta in Es.
  rewrite resolve_condition_handlers_eq in Es.
  cbn [state condition_handlers set_condition_handlers set_uuid_next] in Es.
  set (e := (uuid_next s, test_fn, args, kwargs)) in *.
  assert (Hfr : first_raise (state s) (fifo (put e (condition_handlers s))) =
                match test_fn (state s) args kwargs with
                | Ok _ => None
                | Raise x => Some x
                end).
  { unfold fifo, put. cbn [rev].
    apply (first_raise_app (state s) (rev (condition_handlers s)) e Hf). }
  match type of Es with
  | context [first_raise ?a ?b] =>
      replace (first_raise a b)
        with (match test_fn (state s) args kwargs with
              | Ok _ => @None exn
              | Raise x => Some x
              end) in Es by (symmetry; exact Hfr)
  end.
  cbn [fst snd].
  assert (Hcall : condition_fires (state s) e =
                  match test_fn (state s) args kwargs with
                  | Ok b => b
                  | Raise _ => false
                  end) by reflexivity.
  destruct (test_fn (state s) args kwargs) as [[|]|x] eqn:Et;
    injection Es as E1 E2.
  - assert (Hp : In (Push (uuid_next s) (PDict (state s))) o).
    { try subst o. right. unfold condition_notifications.
      apply (in_map (fun e => Push (condition_endpoint e)
                                (PDict (state s))) _ e).
      apply filter_In. split; [|exact Hcall].
      unfold fifo, put. simpl. apply in_or_app. right. now left. }
    split; [exact Hp|]. apply Dp. eapply in_pushed, Hp.
  - assert (P : In e (condition_handlers s')).
    { try subst s'. cbn [condition_handlers set_condition_handlers].
      unfold condition_kept, put. cbn [filter]. rewrite ?Hcall. now left. }
    split; [exact P|].
    intro H. apply (Dp _ H). apply (endpoints_condition s' e P).
  - split; [|split].
    + try subst o. cbn [replies filter app].
      fold (replies
              (map (fun e0 => Push (condition_endpoint e0) (PDict (state s)))
                 (filter (condition_fires (state s))
                    (before_raise (state s)
                       (fifo (put e (condition_handlers s))))) ++
               [Reply i (PException x)])).
      rewrite replies_app.
      rewrite (replies_map_push condition_endpoint (fun _ => PDict (state s))).
      reflexivity.
    + try subst s'. reflexivity.
    + intro H. try subst o.
      cbn [pushed flat_map app] in H. fold (pushed) in H.
      change (flat_map _ ?x) with (pushed x) in H.
      rewrite pushed_app in H. cbn [pushed flat_map app] in H.
      rewrite app_nil_r in H.
      rewrite (pushed_map_push condition_endpoint
                 (fun _ => PDict (state s))) in H.
      apply in_map_iff in H. destruct H as [e' [H1 H2]].
      apply filter_In in H2. destruct H2 as [H2 H3].
      assert (e' = e).
      { destruct W as [N B].
        destruct (before_raise_prefix (state s)
                    (fifo (put e (condition_handlers s)))) as [rest Hr].
        assert (Hin : In e' (fifo (put e (condition_handlers s)))).
        { rewrite Hr. apply in_or_app. now left. }
        unfold fifo, put in Hin. apply in_rev in Hin.
        destruct Hin as [Hin|Hin]; [now symmetry|].
        apply endpoints_condition in Hin. apply B in Hin.
        rewrite H1 in Hin. lia. }
      subst e'. rewrite Hcall in H3. discriminate.
Qed.

Lemma condition_registration_witness :
  replies (snd (state_server_step py_dict new_server
                  (mk_request "w" (condition_msg x_positive) []))) =
  [Reply "w" (PEndpoint 0); Reply "w" (PException KeyError)] /\
  condition_handlers
    (fst (state_server_step py_dict new_server
            (mk_request "w" (condition_msg x_positive) []))) = [] /\
  ~ In 0 (pushed (snd (state_server_step py_dict new_server
                         (mk_request "w" (condition_msg x_positive) [])))).
Proof.
  apply (condition_registration py_dict new_server "w"
           (condition_msg x_positive) [] x_positive (Atoms []) []).
  - split; [constructor|]. simpl. tauto.
  - reflexivity.
  - reflexivity.
  - reflexivity.
  - reflexivity.
  - reflexivity.
Defined.

(** X13.  A change watcher is never resolved by its own registration: its
    baseline is taken from the state it is at once compared with.  The
    watcher is queued, under the tuple of its keys or, with no keys, under
    the key of any change with a copy of the state as baseline, and the
    sweep that follows pushes nothing on its endpoint. *)
Theorem change_registration (py : dict_api) (s : ZProcServer) (i : ident)
  (m : msg) (l : dict) (keys : list value) :
  server_wf s ->
  dict_wf (state s) ->
  m_action m = Some "add_change_handler" ->
  m_keys m = Some (map Hashable keys) ->
  let s' := fst (state_server_step py s (mk_request i m l)) in
  let o := snd (state_server_step py s (mk_request i m l)) in
  match keys with
  | [] => pending (change_handlers s') AnyKey (uuid_next s, BState (state s))
  | _ :: _ =>
      pending (change_handlers s') (Keys keys)
        (uuid_next s, BValues (get_keys_cmp (state s) keys))
  end /\
  ~ In (uuid_next s) (pushed o).
Proof.
  intros W Wd Ha Hk. cbv zeta.
  destruct (state_server_step py s (mk_request i m l)) as [s' o] eqn:Es.
  pose proof (state_server_step_conserves py s s' _ o Es) as C.
  destruct (conserves_wf s s' o W C) as [_ [_ [Dp _]]].
  rewrite (registration_step py s i m l _ Ha) in Es.
  change (server_call py "add_change_handler" i m l)
    with (add_change_handler i m) in Es.
  rewrite add_change_handler_eq, Hk, hash_keys_map in Es. cbv zeta in Es.
  injection Es as E1 E2. cbn [fst snd].
  assert (P : match keys with
              | [] => pending (change_handlers s') AnyKey
                        (uuid_next s, BState (state s))
              | _ :: _ =>
                  pending (change_handlers s') (Keys keys)
                    (uuid_next s, BValues (get_keys_cmp (state s) keys))
              end).
  { try subst s'. cbn [change_handlers set_change_handlers].
    unfold change_registered. destruct keys as [|k keys].
    - apply change_kept_pending.
      + apply pending_registry_put;
          [apply change_key_eqb_refl|apply change_key_eqb_eq].
      + unfold change_fires. cbn [snd change_new baseline_neqb].
        now rewrite (dict_eqb_refl _ Wd).
    - apply change_kept_pending.
      + apply pending_registry_put;
          [apply change_key_eqb_refl|apply change_key_eqb_eq].
      + unfold change_fires. cbn [snd change_new baseline_neqb].
        now rewrite list_eqb_refl. }
  split; [exact P|].
  intro H. apply (Dp _ H).
  destruct keys; eapply (endpoints_change s' _ (uuid_next s, _)), P.
Qed.

Lemma change_registration_witness :
  pending
    (change_handlers
       (fst (state_server_step py_dict new_server
               (mk_request "w" (change_msg []) []))))
    AnyKey (0, BState []) /\
  ~ In 0 (pushed (snd (state_server_step py_dict new_server
                         (mk_request "w" (change_msg []) [])))).
Proof.
  apply (change_registration py_dict new_server "w" (change_msg []) [] []).
  - split; [constructor|]. simpl. tauto.
  - constructor.
  - reflexivity.
  - reflexivity.
Defined.

(** ** lock_state *)

(** X14.  [lock_state] first replies with a fresh endpoint and the state as
    it is.  Afterwards the state equals, as a dict, the state the client
    sent back.  A state equal to the current one is not installed: no sweep
    runs and only the uuid counter moves.  A different one is installed
    and the sweep runs. *)
Theorem lock_state_installs (py : dict_api) (s : ZProcServer) (i : ident)
  (m : msg) (locked_state : dict) :
  dict_wf locked_state ->
  m_action m = Some "lock_state" ->
  let s' := fst (state_server_step py s (mk_request i m locked_state)) in
  let o := snd (state_server_step py s (mk_request i m locked_state)) in
  hd_error o = Some (Reply i (PLock (uuid_next s) (state s))) /\
  dict_eqb locked_state (state s') = true /\
  (In ResolveAll o <-> dict_eqb locked_state (state s) = false) /\
  if dict_eqb locked_state (state s)
  then s' = set_uuid_next (S (uuid_next s)) s /\
       o = [Reply i (PLock (uuid_next s) (state s))]
  else state s' = locked_state.
Proof.
  intros Wl Ha. cbv zeta.
  rewrite (registration_step py s i m locked_state _ Ha).
  change (server_call py "lock_state" i m locked_state)
    with (lock_state i m locked_state).
  rewrite lock_state_eq. cbv zeta.
  destruct (dict_eqb locked_state (state s)) eqn:E; cbn [negb fst snd].
  - repeat split; try assumption.
    + intros [H|[]]. discriminate.
    + discriminate.
  - rewrite resolve_all_handlers_eq.
    cbn [state set_state set_uuid_next condition_handlers].
    destruct (first_raise locked_state (fifo (condition_handlers s)))
      as [x|];
      cbn [fst snd state aborted swept set_state hd_error];
      rewrite (dict_eqb_refl _ Wl); repeat split; auto;
      intros _; right; now left.
Qed.

Lemma lock_state_installs_witness :
  let s := set_state [(key_x, VInt 0)] new_server in
  let r := mk_request "a" (action_msg "lock_state") [(key_x, VInt 1)] in
  hd_error (snd (state_server_step py_dict s r)) =
    Some (Reply "a" (PLock 0 [(key_x, VInt 0)])) /\
  dict_eqb [(key_x, VInt 1)] (state (fst (state_server_step py_dict s r))) =
    true /\
  (In ResolveAll (snd (state_server_step py_dict s r)) <->
   dict_eqb [(key_x, VInt 1)] [(key_x, VInt 0)] = false) /\
  state (fst (state_server_step py_dict s r)) = [(key_x, VInt 1)].
Proof.
  apply (lock_state_installs py_dict (set_state [(key_x, VInt 0)] new_server)
           "a" (action_msg "lock_state") [(key_x, VInt 1)]).
  - repeat constructor. simpl. tauto.
  - reflexivity.
Defined.

(** ** What a sweep touches *)

Lemma registry_keys_change_kept (st : dict)
  (r : registry change_key change_entry) :
  registry_keys (change_kept st r) = registry_keys r.
Proof.
  unfold registry_keys, change_kept. rewrite map_map. reflexivity.
Qed.

Lemma registry_keys_val_change_kept (st : dict)
  (r : registry value val_change_entry) :
  registry_keys (val_change_kept st r) = registry_keys r.
Proof.
  unfold registry_keys, val_change_kept. rewrite map_map. reflexivity.
Qed.

(** X15.  A sweep, whether it returns or raises, changes neither the state
    nor the uuid counter, and removes no key from the two keyed
    registries: a queue that is drained stays, empty, under its key.  It
    sends no reply; everything it sends is a push on an endpoint that was
    pending when it started. *)
Theorem sweep_touches_only_queues (s s' : ZProcServer) (r : result unit)
  (o : list event) :
  server_wf s ->
  resolve_all_handlers s = (r, s', o) ->
  state s' = state s /\
  uuid_next s' = uuid_next s /\
  registry_keys (change_handlers s') = registry_keys (change_handlers s) /\
  registry_keys (val_change_handlers s') =
    registry_keys (val_change_handlers s) /\
  replies o = [] /\
  forall e, In e (pushed o) -> In e (endpoints s).
Proof.
  intros W H.
  pose proof (resolve_all_handlers_conserves s s' r o H) as C.
  destruct (conserves_wf s s' o W C) as [_ [_ [_ Ip]]].
  rewrite resolve_all_handlers_eq in H.
  assert (Hc : replies
                 (change_notifications (state s) (change_handlers s)) = [])
    by apply replies_change_notifications.
  assert (Hv : replies
                 (val_change_notifications (state s)
                    (val_change_handlers s)) = [])
    by apply replies_val_change_notifications.
  destruct (first_raise (state s) (fifo (condition_handlers s))) as [x|];
    injection H as <- <- <-;
    cbn [aborted swept state uuid_next change_handlers val_change_handlers];
    rewrite ?registry_keys_change_kept, ?registry_keys_val_change_kept;
    (repeat split; try reflexivity).
  - cbn [replies filter].
    fold (replies (aborted_notifications s)).
    unfold aborted_notifications. rewrite replies_app, Hc.
    apply (replies_map_push condition_endpoint (fun _ => PDict (state s))).
  - intros e He. destruct (Ip e He) as [Hi|Hi]; [exact Hi|].
    cbn [aborted uuid_next] in Hi. lia.
  - cbn [replies filter].
    fold (replies (sweep_notifications s)).
    unfold sweep_notifications. rewrite !replies_app, Hc, Hv.
    unfold condition_notifications, equals_notifications.
    rewrite (replies_map_push condition_endpoint (fun _ => PDict (state s))).
    rewrite (replies_map_push equals_endpoint (fun _ => PBool true)).
    reflexivity.
  - intros e He. destruct (Ip e He) as [Hi|Hi]; [exact Hi|].
    cbn [swept uuid_next] in Hi. lia.
Qed.

Lemma sweep_touches_only_queues_witness :
  let s := set_state [(key_x, VInt 1)] equals_x_one in
  state (swept s) = state s /\
  uuid_next (swept s) = uuid_next s /\
  registry_keys (change_handlers (swept s)) =
    registry_keys (change_handlers s) /\
  registry_keys (val_change_handlers (swept s)) =
    registry_keys (val_change_handlers s) /\
  replies [ResolveAll; Push 0 (PBool true)] = [] /\
  forall e, In e (pushed [ResolveAll; Push 0 (PBool true)]) ->
            In e (endpoints s).
Proof.
  apply (sweep_touches_only_queues
           (set_state [(key_x, VInt 1)] equals_x_one)
           (swept (set_state [(key_x, VInt 1)] equals_x_one))
           (Ok tt) [ResolveAll; Push 0 (PBool true)]).
  - apply one_pending_wf; reflexivity.
  - reflexivity.
Defined.

(** ** Along a run *)

(** X16.  Along any run of the server loop, from a well-formed server:
    no endpoint is pushed on twice; every endpoint pushed on was pending
    at the start or was minted during the run; none that was pushed on is
    still pending at the end; and the server is well-formed again. *)
Theorem pushes_along_a_run (py : dict_api) (s : ZProcServer)
  (requests : list request) :
  server_wf s ->
  let s' := fst (state_server_loop py s requests) in
  let o := snd (state_server_loop py s requests) in
  NoDup (pushed o) /\
  (forall e, In e (pushed o) ->
             In e (endpoints s) \/ uuid_next s <= e < uuid_next s') /\
  (forall e, In e (pushed o) -> ~ In e (endpoints s')) /\
  server_wf s'.
Proof.
  intro W. cbv zeta.
  destruct (state_server_loop py s requests) as [s' o] eqn:E.
  apply state_server_loop_conserves in E.
  destruct (conserves_wf s s' o W E) as [W' [N [D I]]].
  cbn [fst snd]. auto.
Qed.

Lemma pushes_along_a_run_witness :
  let run :=
    state_server_loop py_dict new_server
      [ req "a" (val_change_msg key_x None);
        req "b" (equals_msg key_x (VInt 1));
        req "c" (call_msg "__setitem__" (Atoms [key_x; VInt 1])) ] in
  NoDup (pushed (snd run)) /\
  (forall e, In e (pushed (snd run)) ->
             In e (endpoints new_server) \/
             uuid_next new_server <= e < uuid_next (fst run)) /\
  (forall e, In e (pushed (snd run)) -> ~ In e (endpoints (fst run))) /\
  server_wf (fst run).
Proof.
  apply (pushes_along_a_run py_dict new_server
           [ req "a" (val_change_msg key_x None);
             req "b" (equals_msg key_x (VInt 1));
             req "c" (call_msg "__setitem__" (Atoms [key_x; VInt 1])) ]).
  split; [constructor|]. simpl. tauto.
Defined.

(** ** What each request may change and send *)

Lemma replies_sweep_notifications (s : ZProcServer) :
  replies (sweep_notifications s) = [].
Proof.
  unfold sweep_notifications. rewrite !replies_app.
  rewrite replies_change_notifications, replies_val_change_notifications.
  unfold condition_notifications, equals_notifications.
  rewrite (replies_map_push condition_endpoint (fun _ => PDict (state s))).
  rewrite (replies_map_push equals_endpoint (fun _ => PBool true)).
  reflexivity.
Qed.

Lemma replies_aborted_notifications (s : ZProcServer) :
  replies (aborted_notifications s) = [].
Proof.
  unfold aborted_notifications.
  rewrite replies_app, replies_change_notifications.
  apply (replies_map_push condition_endpoint (fun _ => PDict (state s))).
Qed.

(** The replies to a handler that has sent one reply and then runs a
    sweep. *)
Lemma replies_after_sweep (s : ZProcServer) (i : ident) (p : payload) :
  exists q,
    (replies
       (snd (match (match resolve_all_handlers s with
                    | (r, s', o) => (r, s', Reply i p :: o)
                    end) with
             | (Ok _, s', o) => (s', o)
             | (Raise e, s', o) => (s', o ++ [Reply i (PException e)])
             end)) = [Reply i q] \/
     exists e,
       replies
         (snd (match (match resolve_all_handlers s with
                      | (r, s', o) => (r, s', Reply i p :: o)
                      end) with
               | (Ok _, s', o) => (s', o)
               | (Raise e, s', o) => (s', o ++ [Reply i (PException e)])
               end)) = [Reply i q; Reply i (PException e)]).
Proof.
  exists p. rewrite resolve_all_handlers_eq.
  destruct (first_raise (state s) (fifo (condition_handlers s))) as [x|];
    cbn [snd].
  - right. exists x. cbn [replies filter app].
    fold (replies (aborted_notifications s ++ [Reply i (PException x)])).
    now rewrite replies_app, replies_aborted_notifications.
  - left. cbn [replies filter].
    fold (replies (sweep_notifications s)).
    now rewrite replies_sweep_notifications.
Qed.

(** X17.  Every request that names one of the eight handlers is answered:
    once, or twice when the handler raises after it has replied, and then
    the second answer is an error object.  Every answer goes to the
    originator of the request. *)
Theorem handlers_reply_once_or_twice (py : dict_api) (s : ZProcServer)
  (i : ident) (m : msg) (l : dict) (action : string) :
  m_action m = Some action ->
  In action action_table ->
  exists p,
    replies (snd (state_server_step py s (mk_request i m l))) =
      [Reply i p] \/
    exists e,
      replies (snd (state_server_step py s (mk_request i m l))) =
        [Reply i p; Reply i (PException e)].
Proof.
  intros Ha Hin.
  rewrite (registration_step py s i m l _ Ha).
  destruct Hin as [<-|[<-|[<-|[<-|[<-|[<-|[<-|[<-|[]]]]]]]]].
  - exists (PDict (state s)). now left.
  - change (server_call py "get_state_attr" i m l)
      with (get_state_attr py i m).
    rewrite get_state_attr_eq.
    destruct (m_item m) as [name|];
      [destruct (get_attr py name (state s)) as [a|e]|]; eexists; left;
      reflexivity.
  - rewrite server_call_get_state_callable, get_state_callable_eq.
    destruct (m_item m) as [name|]; [|eexists; left; reflexivity].
    cbv zeta.
    destruct (dict_call py name _ _ (state s)) as [[p|e] d];
      [|eexists; left; reflexivity].
    destruct (in_strings name ACTIONS_THAT_MUTATE &&
              negb (dict_eqb (state s) d));
      [|eexists; left; reflexivity].
    apply replies_after_sweep.
  - change (server_call py "lock_state" i m l) with (lock_state i m l).
    rewrite lock_state_eq. cbv zeta.
    destruct (negb (dict_eqb l (state s))); [|eexists; left; reflexivity].
    apply replies_after_sweep.
  - change (server_call py "add_change_handler" i m l)
      with (add_change_handler i m).
    rewrite add_change_handler_eq. cbv zeta.
    exists (PEndpoint (uuid_next s)).
    destruct (m_keys m) as [keys|];
      [destruct (hash_keys keys) as [ks|e]|]; cbn [snd].
    + left. cbn [replies filter].
      fold (replies
              (change_notifications (state s) (change_registered ks s))).
      now rewrite replies_change_notifications.
    + right. now exists e.
    + right. now exists KeyError.
  - change (server_call py "add_val_change_handler" i m l)
      with (add_val_change_handler i m).
    rewrite add_val_change_handler_eq. cbv zeta.
    exists (PEndpoint (uuid_next s)).
    destruct (m_key m) as [[key|]|]; cbn [snd].
    + left. cbn [replies filter].
      fold (replies
              (val_change_notifications (state s)
                 (val_change_registered key (m_value m) s))).
      now rewrite replies_val_change_notifications.
    + right. now exists TypeError.
    + right. now exists KeyError.
  - change (server_call py "add_equals_handler" i m l)
      with (add_equals_handler i m).
    rewrite add_equals_handler_eq. cbv zeta.
    exists (PEndpoint (uuid_next s)).
    destruct (m_key m) as [[key|]|];
      [destruct (m_value m) as [v|]|destruct (m_value m) as [v|]|];
      cbn [snd]; try (right; now exists KeyError).
    + left. cbn [replies filter]. unfold equals_notifications.
      apply f_equal.
      apply (replies_map_push equals_endpoint (fun _ => PBool true)).
    + right. exists TypeError. cbn [replies filter app].
      match goal with
      | |- context [filter _ (?a ++ [?b])] => fold (replies (a ++ [b]))
      end.
      rewrite replies_app. unfold equals_notifications.
      now rewrite (replies_map_push equals_endpoint (fun _ => PBool true)).
  - change (server_call py "add_condition_handler" i m l)
      with (add_condition_handler i m).
    rewrite add_condition_handler_eq. cbv zeta.
    exists (PEndpoint (uuid_next s)).
    destruct (m_callable m) as [f|];
      [destruct (m_args m) as [a|]; [destruct (m_kwargs m) as [k|]|]|];
      cbn [snd]; try (right; now exists KeyError).
    rewrite resolve_condition_handlers_eq.
    match goal with
    | |- context [first_raise ?a ?b] => destruct (first_raise a b) as [x|]
    end; cbn [snd].
    + right. exists x. cbn [replies filter app].
      match goal with
      | |- context [filter _ (?a ++ [Reply i (PException x)])] =>
          fold (replies (a ++ [Reply i (PException x)]))
      end.
      rewrite replies_app.
      now rewrite (replies_map_push condition_endpoint
                     (fun _ => PDict (state s))).
    + left. cbn [replies filter]. unfold condition_notifications.
      apply f_equal.
      apply (replies_map_push condition_endpoint (fun _ => PDict (state s))).
Qed.

Lemma handlers_reply_once_or_twice_witness :
  exists p,
    replies (snd (state_server_step py_dict condition_x_one
                    (mk_request "c"
                       (call_msg "__setitem__" (Atoms [key_x; VInt 1]))
                       []))) =
      [Reply "c" p] \/
    exists e,
      replies (snd (state_server_step py_dict condition_x_one
                      (mk_request "c"
                         (call_msg "__setitem__" (Atoms [key_x; VInt 1]))
                         []))) =
        [Reply "c" p; Reply "c" (PException e)].
Proof.
  apply (handlers_reply_once_or_twice py_dict condition_x_one "c"
           (call_msg "__setitem__" (Atoms [key_x; VInt 1])) []
           "get_state_callable").
  - reflexivity.
  - simpl. tauto.
Defined.

(** X18.  Only [get_state_callable] and [lock_state] change the state: a
    request with any other action, or with none, leaves it as it was; so
    does every watcher registration, also one that raises. *)
Theorem state_changed_only_by (py : dict_api) (s : ZProcServer)
  (r : request) :
  m_action (r_msg r) <> Some "get_state_callable" ->
  m_action (r_msg r) <> Some "lock_state" ->
  state (fst (state_server_step py s r)) = state s.
Proof.
  intros H1 H2.
  destruct (m_action (r_msg r)) as [action|] eqn:Ha.
  - rewrite (state_server_step_action py s r _ Ha).
    unfold server_call.
    repeat match goal with
           | |- context [if String.eqb action ?a then _ else _] =>
               let E := fresh "E" in
               destruct (String.eqb action a) eqn:E;
               [apply String.eqb_eq in E; subst action|]
           end; try congruence; try reflexivity.
    + rewrite get_state_attr_eq.
      destruct (m_item (r_msg r));
        [destruct (get_attr py _ (state s))|]; reflexivity.
    + rewrite add_change_handler_eq. cbv zeta.
      destruct (m_keys (r_msg r)) as [keys|];
        [destruct (hash_keys keys)|]; reflexivity.
    + rewrite add_val_change_handler_eq. cbv zeta.
      destruct (m_key (r_msg r)) as [[key|]|]; reflexivity.
    + rewrite add_equals_handler_eq. cbv zeta.
      destruct (m_key (r_msg r)) as [[key|]|];
        destruct (m_value (r_msg r)); reflexivity.
    + rewrite add_condition_handler_eq. cbv zeta.
      destruct (m_callable (r_msg r));
        [destruct (m_args (r_msg r)); [destruct (m_kwargs (r_msg r))|]|];
        try reflexivity.
      rewrite resolve_condition_handlers_eq.
      match goal with
      | |- context [first_raise ?a ?b] => destruct (first_raise a b)
      end; reflexivity.
    + destruct (in_strings action uncallable_attributes); reflexivity.
  - unfold state_server_step, bind. rewrite Ha. reflexivity.
Qed.

Lemma state_changed_only_by_witness :
  state (fst (state_server_step py_dict
                (set_state [(key_x, VInt 1)] new_server)
                (req "w" (condition_msg x_inverse)))) =
  [(key_x, VInt 1)].
Proof.
  apply (state_changed_only_by py_dict
           (set_state [(key_x, VInt 1)] new_server)
           (req "w" (condition_msg x_inverse))).
  - intro H. discriminate H.
  - intro H. discriminate H.
Defined.

(** X19.  A call of an attribute outside [ACTIONS_THAT_MUTATE] is answered
    once, with its result or with the error object of the exception it
    raises, and touches no watcher: no sweep runs and nothing is pushed,
    also when the attribute has changed the dict. *)
Theorem non_mutating_call_is_silent (py : dict_api) (s : ZProcServer)
  (i : ident) (m : msg) (l : dict) (name : string) :
  m_action m = Some "get_state_callable" ->
  m_item m = Some name ->
  ~ In name ACTIONS_THAT_MUTATE ->
  let args := match m_args m with Some a => a | None => Atoms [] end in
  let kwargs := match m_kwargs m with Some k => k | None => [] end in
  state_server_step py s (mk_request i m l) =
  (set_state (snd (call_attr py name args kwargs (state s))) s,
   [Reply i match fst (call_attr py name args kwargs (state s)) with
            | Ok p => p
            | Raise e => PException e
            end]).
Proof.
  intros Ha Hi Hn. cbv zeta.
  rewrite (registration_step py s i m l _ Ha).
  rewrite server_call_get_state_callable, get_state_callable_eq, Hi.
  cbv zeta.
  assert (Hf : in_strings name ACTIONS_THAT_MUTATE = false).
  { destruct (in_strings name ACTIONS_THAT_MUTATE) eqn:E; [|reflexivity].
    apply in_strings_In in E. contradiction. }
  unfold dict_call.
  rewrite (proj1 (dict_mutate_none name _ _ (state s)) Hf), Hf.
  destruct (call_attr py name _ _ (state s)) as [[p|e] d]; reflexivity.
Qed.

Lemma non_mutating_call_is_silent_witness :
  state_server_step py_dict (set_state [(key_x, VInt 1)] equals_x_one)
    (mk_request "c" (call_msg "get" (Atoms [key_x])) []) =
  (set_state [(key_x, VInt 1)] equals_x_one, [Reply "c" (PVal (VInt 1))]).
Proof.
  apply (non_mutating_call_is_silent py_dict
           (set_state [(key_x, VInt 1)] equals_x_one) "c"
           (call_msg "get" (Atoms [key_x])) [] "get").
  - reflexivity.
  - reflexivity.
  - simpl. intuition discriminate.
Defined.

(** X20.  [send_state] and [get_state_attr] only read: the server is left
    exactly as it was (state, queues, endpoint counter), nothing is pushed,
    and the one reply is the state, the attribute, or the error object of
    what reading the attribute raised (a [KeyError] when the request names
    no attribute). *)
Theorem read_only_requests (py : dict_api) (s : ZProcServer) (i : ident)
  (m : msg) (l : dict) (action : string) :
  m_action m = Some action ->
  action = "send_state" \/ action = "get_state_attr" ->
  state_server_step py s (mk_request i m l) =
  (s, [Reply i
         (if String.eqb action "send_state" then PDict (state s)
          else match m_item m with
               | None => PException KeyError
               | Some name =>
                   match get_attr py name (state s) with
                   | Ok attr => attr
                   | Raise e => PException e
                   end
               end)]).
Proof.
  intros Ha [-> | ->]; rewrite (registration_step py s i m l _ Ha).
  - reflexivity.
  - change (server_call py "get_state_attr" i m l)
      with (get_state_attr py i m).
    rewrite get_state_attr_eq.
    destruct (m_item m) as [name|];
      [destruct (get_attr py name (state s))|]; reflexivity.
Qed.

Lemma read_only_requests_witness :
  state_server_step py_dict change_on_x
    (mk_request "c" (action_msg "get_state_attr") []) =
  (change_on_x, [Reply "c" (PException KeyError)]).
Proof.
  apply (read_only_requests py_dict change_on_x "c"
           (action_msg "get_state_attr") [] "get_state_attr").
  - reflexivity.
  - right. reflexivity.
Defined.
